(** * measure-input-latency: a shallow embedding of [main.cpp]

    The program toggles a GPIO output pin and measures how long it takes for
    the transition to be seen on a GPIO input pin or as an evdev key event.
    The embedding follows [main.cpp] function by function.  Everything the
    program gets from outside (pin levels, [read(2)] results, [open(2)]
    results, clock readings) is scripted in a [world]; everything it does to
    the outside is appended to the world's trace. *)

From Stdlib Require Import ZArith Lia.
From stdpp Require Import base numbers list strings pretty.

Local Open Scope Z_scope.

(** ** Constants of the headers the program includes *)

(** [wiringPi.h] *)
Definition LOW : Z := 0.
Definition HIGH : Z := 1.
Definition INPUT : Z := 0.
Definition OUTPUT : Z := 1.
Definition PUD_UP : Z := 2.

(** [linux/input-event-codes.h] *)
Definition EV_KEY : Z := 1.

(** [main.cpp], lines 29-30 *)
Definition g_pin_input : Z := 0.
Definition g_pin_output : Z := 2.

(** ** C integer conversions *)

(** Conversion of an [int] to [unsigned int]. *)
Definition to_unsigned (v : Z) : Z := v mod 2 ^ 32.

(** Conversion of an [unsigned int] to [int] (two's complement). *)
Definition to_int (u : Z) : Z :=
  let r := u mod 2 ^ 32 in if r <? 2 ^ 31 then r else r - 2 ^ 32.

(** A value as a signed 64-bit integer, the representation of the clock's
    durations and of [std::chrono::nanoseconds] (two's complement). *)
Definition to_int64 (v : Z) : Z :=
  let r := v mod 2 ^ 64 in if r <? 2 ^ 63 then r else r - 2 ^ 64.

(** The value of a [bool] used as an [int]. *)
Definition bool_to_int (b : bool) : Z := if b then 1 else 0.

(** The values an [int] can hold. *)
Definition is_int (v : Z) : Prop := - 2 ^ 31 <= v < 2 ^ 31.

(** ** Data model *)

(** [struct program_config], lines 32-41. *)
Record program_config := {
  iterations : Z;
  delay_min : Z;
  delay_max : Z;
  pin : bool;
  usb : option Z;
  key : option Z;
  events : bool;
  summary : bool
}.

(** The default member initialisers of [program_config]. *)
Definition defaults : program_config := {|
  iterations := 1000;
  delay_min := 10000;
  delay_max := 20000;
  pin := false;
  usb := None;
  key := None;
  events := false;
  summary := false
|}.

(** [struct input_event] of [linux/input.h]. *)
Record input_event := {
  time_sec : Z;
  time_usec : Z;
  ev_type : Z;
  ev_code : Z;
  ev_value : Z
}.

(** What the program does to the outside, in the order it does it.  An
    action that gets an answer records the answer. *)
Inductive action :=
  | WiringPiSetup
  | PinMode (p mode : Z)
  | PullUpDnControl (p pud : Z)
  | DigitalWrite (p level : Z)
  | DigitalRead (p level : Z)
  | SleepFor (microseconds : Z)
  | ClockNow (ticks : Z)
  | Open (path : string) (fd : Z)
  | Close (fd : Z)
  | IoctlName (fd : Z) (name : string)
  | Read (fd : Z) (ret : Z) (buf : input_event)
  | Stdout (text : string)
  | Stderr (text : string).

(** The outside world.  [pin_levels] and [fd_reads] script the answers of the
    coming [digitalRead] and [read] calls; [open_result], [device_name] and
    [clock] answer [open], the [EVIOCGNAME] ioctl and
    [high_resolution_clock::now]. *)
Record world := {
  pin_levels : list Z;
  fd_reads : list (Z * input_event);
  open_result : string → Z;
  device_name : Z → string;
  clock : nat → Z;
  clock_calls : nat;
  trace : list action
}.

(** ** The monad of the program: state, [exit], uncaught exceptions, and
    polling that has run out of scripted input *)

Inductive outcome (A : Type) :=
  | Returned (a : A) (w : world)
  | Exited (status : Z) (w : world)
  | Aborted (w : world)
  | Blocked (w : world).
Arguments Returned {A} a w.
Arguments Exited {A} status w.
Arguments Aborted {A} w.
Arguments Blocked {A} w.

Definition M (A : Type) : Type := world → outcome A.

Definition ret {A} (a : A) : M A := λ w, Returned a w.

Definition bind {A B} (m : M A) (k : A → M B) : M B := λ w,
  match m w with
  | Returned a w' => k a w'
  | Exited s w' => Exited s w'
  | Aborted w' => Aborted w'
  | Blocked w' => Blocked w'
  end.

Declare Scope cpp_scope.
Delimit Scope cpp_scope with cpp.
Notation "'let*' x ':=' m 'in' k" := (bind m (λ x, k))
  (at level 10, x name, m at level 100, k at level 200) : cpp_scope.
Notation "m ';;;' k" := (bind m (λ _, k))
  (at level 100, k at level 200, right associativity) : cpp_scope.
Local Open Scope cpp_scope.

(** The world after an outcome. *)
Definition world_of {A} (o : outcome A) : world :=
  match o with
  | Returned _ w | Exited _ w | Aborted w | Blocked w => w
  end.

Definition with_trace (t : list action) (w : world) : world := {|
  pin_levels := pin_levels w;
  fd_reads := fd_reads w;
  open_result := open_result w;
  device_name := device_name w;
  clock := clock w;
  clock_calls := clock_calls w;
  trace := t
|}.

(** Appends one action to the trace. *)
Definition emit (a : action) : M unit := λ w,
  Returned tt (with_trace (trace w ++ [a]) w).

(** [exit(status)]. *)
Definition exit {A} (status : Z) : M A := λ w, Exited status w.

(** [std::terminate], reached by an exception nobody catches. *)
Definition terminate {A} : M A := λ w, Aborted w.

(** ** System and library calls *)

Definition wiringPiSetup : M unit := emit WiringPiSetup.
Definition pinMode (p mode : Z) : M unit := emit (PinMode p mode).
Definition pullUpDnControl (p pud : Z) : M unit := emit (PullUpDnControl p pud).
Definition digitalWrite (p level : Z) : M unit := emit (DigitalWrite p level).

(** [digitalRead(p)]: the next scripted level. *)
Definition digitalRead (p : Z) : M Z := λ w,
  match pin_levels w with
  | [] => Blocked w
  | v :: rest =>
      Returned v {|
        pin_levels := rest;
        fd_reads := fd_reads w;
        open_result := open_result w;
        device_name := device_name w;
        clock := clock w;
        clock_calls := clock_calls w;
        trace := trace w ++ [DigitalRead p v]
      |}
  end.

(** [read(fd, &buf, sizeof(input_event))]: the next scripted return value,
    with the contents of [buf] after the call. *)
Definition read (fd : Z) : M (Z * input_event) := λ w,
  match fd_reads w with
  | [] => Blocked w
  | (r, buf) :: rest =>
      Returned (r, buf) {|
        pin_levels := pin_levels w;
        fd_reads := rest;
        open_result := open_result w;
        device_name := device_name w;
        clock := clock w;
        clock_calls := clock_calls w;
        trace := trace w ++ [Read fd r buf]
      |}
  end.

(** [open(path, O_RDONLY | O_NONBLOCK)]. *)
Definition open (path : string) : M Z := λ w,
  let fd := open_result w path in
  Returned fd (with_trace (trace w ++ [Open path fd]) w).

Definition close (fd : Z) : M unit := emit (Close fd).

(** [ioctl(fd, EVIOCGNAME(sizeof(event_name)), event_name)] followed by
    [std::string(event_name)]. *)
Definition ioctl_name (fd : Z) : M string := λ w,
  let n := device_name w fd in
  Returned n (with_trace (trace w ++ [IoctlName fd n]) w).

(** [std::chrono::high_resolution_clock::now()], in ticks of the clock. *)
Definition now : M Z := λ w,
  let t := clock w (clock_calls w) in
  Returned t {|
    pin_levels := pin_levels w;
    fd_reads := fd_reads w;
    open_result := open_result w;
    device_name := device_name w;
    clock := clock w;
    clock_calls := S (clock_calls w);
    trace := trace w ++ [ClockNow t]
  |}.

Definition sleep_for (microseconds : Z) : M unit := emit (SleepFor microseconds).

Definition cout (text : string) : M unit := emit (Stdout text).
Definition cerr (text : string) : M unit := emit (Stderr text).

(** [while (true) { body }], where [body] answers [true] for [break] and
    [false] for [continue] or the end of the block.  Every polling loop of
    the program consumes scripted input on each turn, so the number of
    pending inputs plus one bounds the turns: [Blocked] comes from the input
    running out, never from the bound. *)
Fixpoint loop (turns : nat) (body : M bool) : M unit :=
  match turns with
  | O => λ w, Blocked w
  | S n => let* stop := body in if stop : bool then ret tt else loop n body
  end.

Definition pending (w : world) : nat :=
  (length (pin_levels w) + length (fd_reads w))%nat.

Definition while_true (body : M bool) : M unit := λ w,
  loop (S (pending w)) body w.

(** An [int] used as a condition. *)
Definition truthy (v : Z) : bool := negb (v =? 0).

(** ** The C++ standard library, as far as the program uses it

    [<random>] and [<chrono>] are not part of the program.  The program is
    modelled over any implementation with the properties the C++ standard
    gives them: an engine is a state seeded from an integer; a
    [uniform_int_distribution<int>{a, b}] applied to an engine yields an
    [int] in the closed range [[a, b]] and the engine's next state (or never
    returns: [None]); the clock's tick converts to nanoseconds by a positive
    ratio [cf_num / cf_den]. *)
Class StdLib := {
  engine : Type;
  mt19937 : Z → engine;
  uniform_int_distribution : Z → Z → engine → option (Z * engine);
  uniform_int_distribution_range : ∀ a b g v g',
    is_int a → is_int b → a ≤ b →
    uniform_int_distribution a b g = Some (v, g') → a ≤ v ≤ b;
  cf_num : positive;
  cf_den : positive
}.

(** The newline that [std::endl] writes. *)
Definition endl : string := String (Ascii.ascii_of_nat 10) EmptyString.

(** The double quote character, as a string. *)
Definition dquote : string := String (Ascii.ascii_of_nat 34) EmptyString.

(** [operator<<] of an [int] or a [long] into a stream. *)
Definition show (v : Z) : string := pretty v.

(** ** [print_config], lines 45-66 *)

Definition tf (a : bool) : string := if a then "true" else "false".

(** The lambda [opt]; its parameter is a [std::optional<int>], so the
    [unsigned int] of [config] is converted. *)
Definition opt (a : option Z) : string :=
  match a with
  | Some v => show (to_int v)
  | None => "null"
  end.

(** The line [print_config] writes. *)
Definition config_summary (config : program_config) : string :=
  "{" +:+ dquote +:+ "iterations" +:+ dquote +:+ ":" +:+ show (iterations config) +:+ ","
  +:+ dquote +:+ "delay_min" +:+ dquote +:+ ":" +:+ show (delay_min config) +:+ ","
  +:+ dquote +:+ "delay_max" +:+ dquote +:+ ":" +:+ show (delay_max config) +:+ ","
  +:+ dquote +:+ "pin" +:+ dquote +:+ ":" +:+ tf (pin config) +:+ ","
  +:+ dquote +:+ "usb" +:+ dquote +:+ ":" +:+ opt (usb config) +:+ ","
  +:+ dquote +:+ "key" +:+ dquote +:+ ":" +:+ opt (key config) +:+ "}" +:+ endl.

Definition print_config (config : program_config) : M unit :=
  cout (config_summary config).

(** ** [class Event], lines 68-108 *)

Record Event := { _fd : Z; _id : Z }.

(** The constructor, lines 73-82.  [None] stands for the [OpenException] it
    throws; no object exists then, and no destructor will run. *)
Definition Event_ctor (event_id : Z) : M (option Event) :=
  let* fd := open ("/dev/input/event" +:+ show event_id) in
  if fd <? 0 then ret None
  else ret (Some {| _fd := fd; _id := event_id |}).

(** The destructor, lines 84-88. *)
Definition Event_dtor (event : Event) : M unit :=
  if 0 <=? _fd event then close (_fd event) else ret tt.

(** [Event::name], lines 90-95. *)
Definition Event_name (event : Event) : M string := ioctl_name (_fd event).

(** [try { Event event(event_id); body } catch (const Event::OpenException&)
    { handler }]: the object lives for [body]; leaving the block runs its
    destructor.  [exit] inside [body] ends the process without running it, as
    in C++. *)
Definition try_Event {A} (event_id : Z) (body : Event → M A) (handler : M A) : M A :=
  let* constructed := Event_ctor event_id in
  match constructed with
  | None => handler
  | Some event =>
      let* a := body event in
      Event_dtor event ;;;
      ret a
  end.

(** ** [init_pins], lines 110-118 *)

Definition init_pins : M unit :=
  wiringPiSetup ;;;
  pinMode g_pin_input INPUT ;;;
  pullUpDnControl g_pin_input PUD_UP ;;;
  pinMode g_pin_output OUTPUT ;;;
  digitalWrite g_pin_output LOW.

(** [std::vector<T> v(n)] for an [int] [n]: [n] value-initialised elements.
    A negative [n] converts to a size no allocation can serve, and the
    exception is caught nowhere. *)
Definition vector_new (n : Z) : M (list Z) :=
  if n <? 0 then terminate else ret (replicate (Z.to_nat n) 0).

Section Program.
Context `{StdLib}.

(** ** [get_delays], lines 120-130 *)

(** [std::generate] over a vector of [n] elements, with a generator that
    draws from the engine: the elements are filled front to back. *)
Fixpoint generate (n : nat) (gen : engine → option (Z * engine)) (g : engine)
    : option (list Z) :=
  match n with
  | O => Some []
  | S n' =>
      match gen g with
      | None => None
      | Some (v, g') =>
          match generate n' gen g' with
          | None => None
          | Some vs => Some (v :: vs)
          end
      end
  end.

(** The delays are in microseconds. *)
Definition get_delays (config : program_config) : M (list Z) :=
  let rand_gen := mt19937 30378 in
  let int_dist := uniform_int_distribution (delay_min config) (delay_max config) in
  let* ret_ := vector_new (iterations config) in
  match generate (length ret_) int_dist rand_gen with
  | Some delays => ret delays
  | None => λ w, Blocked w
  end.

(** ** [print_event_paths], lines 132-141 *)

Fixpoint print_event_paths_from (n : nat) (event_id : Z) : M unit :=
  match n with
  | O => ret tt
  | S n' =>
      try_Event event_id
        (λ event,
           let* name := Event_name event in
           cout ("[" +:+ show (_id event) +:+ "] " +:+ name +:+ endl))
        (ret tt) ;;;
      print_event_paths_from n' (event_id + 1)
  end.

Definition print_event_paths : M unit := print_event_paths_from 256 0.

(** ** [measure_loop], lines 143-170 *)

(** [std::chrono::duration_cast<std::chrono::nanoseconds>(now() - start)],
    line 163, of the difference [ticks] of two clock readings.  The
    subtraction, the multiplication by the numerator and the division by the
    denominator of the clock's period in nanoseconds are all done in the
    signed 64-bit representation of a duration, the division truncating
    toward zero; what overflows wraps around. *)
Definition duration_cast_ns (ticks : Z) : Z :=
  to_int64 (Z.quot (to_int64 (to_int64 ticks * Z.pos cf_num)) (Z.pos cf_den)).

(** The [for] loop, lines 155-167, with [n] turns left.  [delays] and
    [times] both have [config.iterations] elements, so [i] is in range of
    both; at an index out of range of [delays], which C++ leaves undefined,
    the model aborts. *)
Fixpoint measure_trials (detect : bool → M unit) (delays : list Z)
    (n : nat) (i : nat) (times : list Z) : M (list Z) :=
  match n with
  | O => ret times
  | S n' =>
      match delays !! i with
      | None => terminate
      | Some delay =>
          sleep_for delay ;;;
          let* start := now in
          digitalWrite g_pin_output HIGH ;;;
          detect true ;;;
          let* stop := now in
          let times := <[i := duration_cast_ns (stop - start)]> times in
          digitalWrite g_pin_output LOW ;;;
          detect false ;;;
          measure_trials detect delays n' (S i) times
      end
  end.

Definition measure_loop (config : program_config) (detect : bool → M unit)
    : M (list Z) :=
  (if summary config then print_config config else ret tt) ;;;
  init_pins ;;;
  let* delays := get_delays config in
  let* times := vector_new (iterations config) in
  measure_trials detect delays (Z.to_nat (iterations config)) 0 times.

(** ** [measure_usb], lines 172-201 *)

(** [keyboard_event.code == config.key]: comparison of a value with a
    [std::optional], false when the optional is empty. *)
Definition eq_optional (v : Z) (o : option Z) : bool :=
  match o with
  | Some k => v =? k
  | None => false
  end.

(** The condition of lines 188-192.  [?:] binds weaker than [&&], so the
    whole conjunction is the condition of the conditional expression. *)
Definition usb_condition (config : program_config) (keyboard_event : input_event)
    (pressed : bool) : Z :=
  if (ev_type keyboard_event =? EV_KEY)
     && eq_optional (ev_code keyboard_event) (key config)
     && (ev_value keyboard_event =? bool_to_int pressed)
  then 1 else 0.

(** The body of the loop of lines 179-195.  [read] returns -1 or a byte
    count of at most [sizeof(input_event)], which [int ret] holds
    unchanged. *)
Definition detect_usb_body (config : program_config) (fd : Z) (pressed : bool)
    : M bool :=
  let* r := read fd in
  let ret_ := r.1 in
  let keyboard_event := r.2 in
  if ret_ =? -1 then ret false
  else if truthy (usb_condition config keyboard_event pressed) then ret true
  else ret false.

(** The lambda of lines 178-196. *)
Definition detect_usb (config : program_config) (fd : Z) (pressed : bool) : M unit :=
  while_true (detect_usb_body config fd pressed).

Definition measure_usb (config : program_config) (event_id : Z) : M (list Z) :=
  try_Event event_id
    (λ event,
       let fd := _fd event in
       measure_loop config (detect_usb config fd))
    (cerr ("Could not open fd for " +:+ show event_id +:+ endl) ;;;
     exit 1).

(** ** [measure_pin], lines 203-211 *)

(** The condition of line 206.  [?:] binds weaker than [==], so the
    comparison is the condition of the conditional expression. *)
Definition pin_condition (level : Z) (pressed : bool) : Z :=
  if level =? bool_to_int pressed then LOW else HIGH.

(** The body of the loop of lines 205-209. *)
Definition detect_pin_body (pressed : bool) : M bool :=
  let* level := digitalRead g_pin_input in
  if truthy (pin_condition level pressed) then ret true
  else ret false.

(** The lambda of lines 204-210. *)
Definition detect_pin (pressed : bool) : M unit :=
  while_true (detect_pin_body pressed).

Definition measure_pin (config : program_config) : M (list Z) :=
  measure_loop config detect_pin.

(** ** [measure], lines 213-222 *)

Definition measure (measure_fn : M (list Z)) : M unit :=
  let* times := measure_fn in
  let tss := foldl (λ acc t, acc +:+ show t +:+ endl) EmptyString times in
  cout tss.

End Program.

(** ** [help], lines 224-246 *)

Definition help_msg : string :=
  "-i, --iterations <n>   Number of iterations to perform (default: " +:+ show (iterations defaults) +:+ ")." +:+ endl
  +:+ "-d, --delaymin <n>     Minimum delay between measurements (default: " +:+ show (delay_min defaults) +:+ ")." +:+ endl
  +:+ "-D, --delaymax <n>     Maximum delay between measurements (default: " +:+ show (delay_max defaults) +:+ ")." +:+ endl
  +:+ "-p, --pin              Run pin-based measurement." +:+ endl
  +:+ "-u, --usb <event_id>   Run usb-based measurement. Pass an evdev event id." +:+ endl
  +:+ "-k, --key <event_code> Event code of the key used for measurement." +:+ endl
  +:+ "                       See kernel 'input-event-codes.h'." +:+ endl
  +:+ "-e, --events           List names of evdev events." +:+ endl
  +:+ "-s, --summary          Print summary of measurements." +:+ endl
  +:+ "-h, --help             Show help." +:+ endl.

(** Both branches end the process, so [help] returns to no caller. *)
Definition help {A} (err : bool) : M A :=
  if err then cerr help_msg ;;; exit 1
  else cout help_msg ;;; exit 0.

(** ** [parse_args], lines 248-361 *)

(** What [std::stoi] makes of an option's argument: a value, or one of its
    two exceptions. *)
Inductive stoi_result :=
  | stoi_value (v : Z)
  | stoi_invalid_argument
  | stoi_out_of_range.

(** One result of [getopt_long]: the option found, with [std::stoi] of its
    argument when it takes one.  [getopt_unknown] is ['?'], for an option
    that is not known or lacks its argument; [getopt_long] (the program
    leaves [opterr] set) has then written its [diagnostic] to [stderr]. *)
Inductive getopt_result :=
  | getopt_i (optarg : stoi_result)
  | getopt_d (optarg : stoi_result)
  | getopt_D (optarg : stoi_result)
  | getopt_p
  | getopt_u (optarg : stoi_result)
  | getopt_k (optarg : stoi_result)
  | getopt_e
  | getopt_s
  | getopt_h
  | getopt_unknown (diagnostic : string).

(** The lambda [get_num], lines 263-273; only [std::invalid_argument] is
    caught. *)
Definition get_num (name : string) (optarg : stoi_result) : M Z :=
  match optarg with
  | stoi_value val => ret val
  | stoi_invalid_argument =>
      cerr (name +:+ " must be a number." +:+ endl) ;;;
      help true
  | stoi_out_of_range => terminate
  end.

(** The lambda [get_positive], lines 275-284. *)
Definition get_positive (name : string) (optarg : stoi_result) (allow_zero : bool)
    : M Z :=
  let* val := get_num name optarg in
  if (val <? 0) || (negb allow_zero && (0 =? val)) then
    cerr (name +:+ " must be greater than zero." +:+ endl) ;;;
    help true
  else ret val.

Definition set_iterations (v : Z) (c : program_config) : program_config :=
  {| iterations := v; delay_min := delay_min c; delay_max := delay_max c;
     pin := pin c; usb := usb c; key := key c; events := events c;
     summary := summary c |}.

Definition set_delay_min (v : Z) (c : program_config) : program_config :=
  {| iterations := iterations c; delay_min := v; delay_max := delay_max c;
     pin := pin c; usb := usb c; key := key c; events := events c;
     summary := summary c |}.

Definition set_delay_max (v : Z) (c : program_config) : program_config :=
  {| iterations := iterations c; delay_min := delay_min c; delay_max := v;
     pin := pin c; usb := usb c; key := key c; events := events c;
     summary := summary c |}.

Definition set_pin (v : bool) (c : program_config) : program_config :=
  {| iterations := iterations c; delay_min := delay_min c;
     delay_max := delay_max c; pin := v; usb := usb c; key := key c;
     events := events c; summary := summary c |}.

Definition set_usb (v : option Z) (c : program_config) : program_config :=
  {| iterations := iterations c; delay_min := delay_min c;
     delay_max := delay_max c; pin := pin c; usb := v; key := key c;
     events := events c; summary := summary c |}.

Definition set_key (v : option Z) (c : program_config) : program_config :=
  {| iterations := iterations c; delay_min := delay_min c;
     delay_max := delay_max c; pin := pin c; usb := usb c; key := v;
     events := events c; summary := summary c |}.

Definition set_events (v : bool) (c : program_config) : program_config :=
  {| iterations := iterations c; delay_min := delay_min c;
     delay_max := delay_max c; pin := pin c; usb := usb c; key := key c;
     events := v; summary := summary c |}.

Definition set_summary (v : bool) (c : program_config) : program_config :=
  {| iterations := iterations c; delay_min := delay_min c;
     delay_max := delay_max c; pin := pin c; usb := usb c; key := key c;
     events := events c; summary := v |}.

(** One call of [getopt_long], line 287, and the [switch] of lines 293-334
    on its result. *)
Definition parse_option (o : getopt_result) (config : program_config)
    : M program_config :=
  match o with
  | getopt_i optarg =>
      let* v := get_positive "iterations" optarg false in
      ret (set_iterations v config)
  | getopt_d optarg =>
      let* v := get_positive "delaymin" optarg true in
      ret (set_delay_min v config)
  | getopt_D optarg =>
      let* v := get_positive "delaymax" optarg true in
      ret (set_delay_max v config)
  | getopt_p => ret (set_pin true config)
  | getopt_u optarg =>
      let* v := get_num "usb" optarg in
      ret (set_usb (Some (to_unsigned v)) config)
  | getopt_k optarg =>
      let* v := get_num "key" optarg in
      ret (set_key (Some (to_unsigned v)) config)
  | getopt_e => ret (set_events true config)
  | getopt_s => ret (set_summary true config)
  | getopt_h => help false
  | getopt_unknown diagnostic =>
      cerr diagnostic ;;;
      help true
  end.

(** The [while] loop of lines 286-335, over the results [getopt_long] gives
    until it returns -1. *)
Fixpoint parse_options (argv : list getopt_result) (config : program_config)
    : M program_config :=
  match argv with
  | [] => ret config
  | o :: rest =>
      let* config := parse_option o config in
      parse_options rest config
  end.

(** The checks of lines 337-360, on the configuration the options left. *)
Definition validate (config : program_config) : M unit :=
  (if delay_max config <? delay_min config then
     cerr ("delaymin must be smaller or equal to delaymin" +:+ endl) ;;;
     help true
   else ret tt) ;;;
  let num_cmds := 0 in
  let num_cmds := if pin config then num_cmds + 1 else num_cmds in
  let num_cmds := if usb config is Some _ then num_cmds + 1 else num_cmds in
  let num_cmds := if events config then num_cmds + 1 else num_cmds in
  (if num_cmds =? 0 then
     cerr ("Must pass one of: pin, usb, events" +:+ endl) ;;;
     help true
   else ret tt) ;;;
  (if 1 <? num_cmds then
     cerr ("Passed conflicting mutually exclusive commands: pin, usb, events" +:+ endl) ;;;
     help true
   else ret tt) ;;;
  (if usb config is Some _ then
     if key config is Some _ then ret tt
     else
       cerr ("Must pass --key when using usb measurement" +:+ endl) ;;;
       help true
   else ret tt).

(** [config] is the program's one global; the model hands it from
    [parse_args] to the functions that read it. *)
Definition parse_args (argv : list getopt_result) : M program_config :=
  let* config := parse_options argv defaults in
  validate config ;;;
  ret config.

(** ** [main], lines 363-375 *)

Section Main.
Context `{StdLib}.

(** The value is the status [main] returns. *)
Definition main (argv : list getopt_result) : M Z :=
  let* config := parse_args argv in
  (if events config then print_event_paths
   else if pin config then measure (measure_pin config)
   else if usb config is Some event_id then
     measure (measure_usb config (to_int event_id))
   else ret tt) ;;;
  ret 0.

End Main.

(** ** One implementation of the library: libstdc++

    [std::mt19937] as the C++ standard defines it ([rand.eng.mers],
    [rand.predef]), and [std::uniform_int_distribution<int>] as libstdc++
    implements it, for a 32-bit [unsigned int]: [uniform_int] is the
    algorithm since GCC 11, [uniform_int_classic] the one before.  The
    standard fixes the engine's numbers, not the distribution's: the two
    algorithms draw different delays from the same engine. *)
Module Libstdcxx.

(** The state of the engine: [_M_x] and [_M_p]. *)
Record mt_state := { _M_x : list Z; _M_p : nat }.

Definition state_size : nat := 624.
Definition shift_size : nat := 397.
Definition xor_mask : Z := 0x9908b0df.
Definition tempering_b : Z := 0x9d2c5680.
Definition tempering_c : Z := 0xefc60000.
Definition initialization_multiplier : Z := 1812433253.
Definition default_seed : Z := 5489.
Definition upper_mask : Z := 0x80000000.
Definition lower_mask : Z := 0x7fffffff.

Definition at_ (x : list Z) (i : nat) : Z := default 0 (x !! i).

(** [seed(result_type)]: the elements after the first. *)
Fixpoint seed_fill (n : nat) (i : Z) (prev : Z) : list Z :=
  match n with
  | O => []
  | S n' =>
      let x := Z.lxor prev (Z.shiftr prev 30) in
      let x := x * initialization_multiplier in
      let x := x + i mod Z.of_nat state_size in
      let x := x mod 2 ^ 32 in
      x :: seed_fill n' (i + 1) x
  end.

Definition seed (sd : Z) : mt_state :=
  let x0 := sd mod 2 ^ 32 in
  {| _M_x := x0 :: seed_fill (state_size - 1) 1 x0; _M_p := state_size |}.

(** [_M_gen_rand]: the element [k] is rebuilt from the elements [k],
    [k + 1] and [k + 397], indices taken modulo 624 (the source splits the
    loop in three so that no index needs the reduction). *)
Fixpoint gen_rand_from (n : nat) (k : nat) (x : list Z) : list Z :=
  match n with
  | O => x
  | S n' =>
      let y := Z.lor (Z.land (at_ x k) upper_mask)
                     (Z.land (at_ x ((k + 1) mod state_size)) lower_mask) in
      let v := Z.lxor (Z.lxor (at_ x ((k + shift_size) mod state_size)) (Z.shiftr y 1))
                      (if truthy (Z.land y 1) then xor_mask else 0) in
      gen_rand_from n' (S k) (<[k := v]> x)
  end.

Definition gen_rand (x : list Z) : list Z := gen_rand_from state_size 0 x.

(** [operator()]: the next number of the engine. *)
Definition next (g : mt_state) : Z * mt_state :=
  let g := if (state_size <=? _M_p g)%nat
           then {| _M_x := gen_rand (_M_x g); _M_p := 0 |} else g in
  let z := at_ (_M_x g) (_M_p g) in
  let z := Z.lxor z (Z.land (Z.shiftr z 11) 0xffffffff) in
  let z := Z.lxor z (Z.land (Z.shiftl z 7) tempering_b) in
  let z := Z.lxor z (Z.land (Z.shiftl z 15) tempering_c) in
  let z := Z.lxor z (Z.shiftr z 18) in
  (z, {| _M_x := _M_x g; _M_p := S (_M_p g) |}).

(** [n] calls of the engine; the last number drawn. *)
Fixpoint discard_then_last (n : nat) (last : Z) (g : mt_state) : Z :=
  match n with
  | O => last
  | S n' => let r := next g in discard_then_last n' r.1 r.2
  end.

Definition urngmin : Z := 0.
Definition urngmax : Z := 2 ^ 32 - 1.

(** The [do ... while (__ret >= __past)] loop.  Nothing bounds the number of
    its turns; the model gives it [turns] and answers [None] beyond. *)
Fixpoint draw_below (turns : nat) (past : Z) (g : mt_state) : option (Z * mt_state) :=
  match turns with
  | O => None
  | S n =>
      let r := next g in
      let ret_ := (to_unsigned r.1 - urngmin) mod 2 ^ 32 in
      if past <=? ret_ then draw_below n past r.2 else Some (ret_, r.2)
  end.

Definition draw_turns : nat := 64.

(** [uniform_int_distribution<int>::operator()(urng, param)] for the
    parameters [a] and [b], as libstdc++ had it before GCC 11: the range of
    the engine is scaled down by a division, and numbers beyond the last
    multiple are drawn again.  The engine's range is that of a 32-bit
    [unsigned int], so the branch that scales the range up is never taken. *)
Definition uniform_int_classic (a b : Z) (g : mt_state) : option (Z * mt_state) :=
  let urngrange := urngmax - urngmin in
  let urange := (to_unsigned b - to_unsigned a) mod 2 ^ 32 in
  if urange <? urngrange then
    let uerange := urange + 1 in
    let scaling := urngrange / uerange in
    let past := uerange * scaling in
    match draw_below draw_turns past g with
    | None => None
    | Some (ret_, g') =>
        let ret_ := ret_ / scaling in
        Some (to_int ((ret_ + to_unsigned a) mod 2 ^ 32), g')
    end
  else if urngrange <? urange then None
  else
    let r := next g in
    let ret_ := (to_unsigned r.1 - urngmin) mod 2 ^ 32 in
    Some (to_int ((ret_ + to_unsigned a) mod 2 ^ 32), r.2).

(** The [while (__low < __threshold)] loop of [_S_nd], with the product
    drawn last.  Nothing bounds the number of its turns; the model gives it
    [turns] and answers [None] beyond. *)
Fixpoint nd_retry (turns : nat) (range threshold product : Z) (g : mt_state)
    : option (Z * mt_state) :=
  let low := product mod 2 ^ 32 in
  if low <? threshold then
    match turns with
    | O => None
    | S n =>
        let r := next g in
        let product := (to_unsigned r.1 * range) mod 2 ^ 64 in
        nd_retry n range threshold product r.2
    end
  else Some (product, g).

(** [_S_nd<uint64_t>(urng, range)]: Lemire's nearly divisionless method, the
    generator's numbers and [range] having 32 bits, the product 64. *)
Definition _S_nd (range : Z) (g : mt_state) : option (Z * mt_state) :=
  let r := next g in
  let product := (to_unsigned r.1 * range) mod 2 ^ 64 in
  let low := product mod 2 ^ 32 in
  let drawn :=
    if low <? range then
      let threshold := ((- range) mod 2 ^ 32) mod range in
      nd_retry draw_turns range threshold product r.2
    else Some (product, r.2) in
  match drawn with
  | Some (product, g') => Some (Z.shiftr product 32, g')
  | None => None
  end.

(** [uniform_int_distribution<int>::operator()(urng, param)] for the
    parameters [a] and [b], as libstdc++ has it since GCC 11: an engine
    whose range is that of a 32-bit [unsigned int] goes through [_S_nd]. *)
Definition uniform_int (a b : Z) (g : mt_state) : option (Z * mt_state) :=
  let urngrange := urngmax - urngmin in
  let urange := (to_unsigned b - to_unsigned a) mod 2 ^ 32 in
  if urange <? urngrange then
    let uerange := urange + 1 in
    match _S_nd uerange g with
    | None => None
    | Some (ret_, g') => Some (to_int ((ret_ + to_unsigned a) mod 2 ^ 32), g')
    end
  else if urngrange <? urange then None
  else
    let r := next g in
    let ret_ := (to_unsigned r.1 - urngmin) mod 2 ^ 32 in
    Some (to_int ((ret_ + to_unsigned a) mod 2 ^ 32), r.2).
End Libstdcxx.

(** * Specification vocabulary *)

(** A pin level, as [digitalRead] reports it. *)
Definition is_level (v : Z) : Prop := v = LOW ∨ v = HIGH.

(** The level of the input pin for a state of the switch: the pin is pulled
    up and the switch pulls it low. *)
Definition active_low (asserted : bool) : Z := if asserted then LOW else HIGH.

(** The world after [seen] was read off the input pin, [rest] still to come. *)
Definition pin_polled (seen rest : list Z) (w : world) : world := {|
  pin_levels := rest;
  fd_reads := fd_reads w;
  open_result := open_result w;
  device_name := device_name w;
  clock := clock w;
  clock_calls := clock_calls w;
  trace := trace w ++ map (DigitalRead g_pin_input) seen
|}.

(** The world after [seen] was read off the descriptor [fd]. *)
Definition fd_polled (fd : Z) (seen rest : list (Z * input_event)) (w : world)
    : world := {|
  pin_levels := pin_levels w;
  fd_reads := rest;
  open_result := open_result w;
  device_name := device_name w;
  clock := clock w;
  clock_calls := clock_calls w;
  trace := trace w ++ map (λ r, Read fd r.1 r.2) seen
|}.

(** A key event for the key [k] in the state [asserted]. *)
Definition key_event_matches (k : Z) (asserted : bool) (e : input_event) : Prop :=
  ev_type e = EV_KEY ∧ ev_code e = k ∧ ev_value e = if asserted then 1 else 0.

(** A read of the input pin or of the descriptor. *)
Definition is_poll (a : action) : Prop :=
  match a with
  | DigitalRead _ _ | Read _ _ _ => True
  | _ => False
  end.

(** A detection backend that only polls: whatever a call does, it leaves the
    clock alone and adds nothing but reads to the trace. *)
Definition polls_only (detect : bool → M unit) : Prop :=
  ∀ b w,
    clock (world_of (detect b w)) = clock w
    ∧ clock_calls (world_of (detect b w)) = clock_calls w
    ∧ ∃ t, trace (world_of (detect b w)) = trace w ++ t ∧ Forall is_poll t.

(** What one trial adds to the trace, given the delay, the two clock
    readings and what the two calls of the backend read. *)
Definition trial_trace (delay start stop : Z)
    (polls_asserted polls_deasserted : list action) : list action :=
  [SleepFor delay; ClockNow start; DigitalWrite g_pin_output HIGH]
  ++ polls_asserted
  ++ [ClockNow stop; DigitalWrite g_pin_output LOW]
  ++ polls_deasserted.

(** What [init_pins] adds to the trace. *)
Definition init_trace : list action :=
  [WiringPiSetup; PinMode g_pin_input INPUT;
   PullUpDnControl g_pin_input PUD_UP; PinMode g_pin_output OUTPUT;
   DigitalWrite g_pin_output LOW].

(** What the summary flag adds to the trace. *)
Definition summary_trace (config : program_config) : list action :=
  if summary config then [Stdout (config_summary config)] else [].

(** A clock that never goes back. *)
Definition monotonic (clk : nat → Z) : Prop :=
  ∀ i j, (i ≤ j)%nat → clk i ≤ clk j.

Section TrialsTrace.
Context `{StdLib}.

(** The trials [i], ..., [i + n - 1] of a run, the clock having been read
    [c] times before: the actions they add to the trace, in order, and the
    samples they store.  Each trial reads the clock twice, around the
    asserted transition only. *)
Inductive trials_trace (clk : nat → Z) (delays samples : list Z)
    : nat → nat → nat → list action → Prop :=
  | trials_done i c : trials_trace clk delays samples i 0 c []
  | trials_next i n c delay polls_asserted polls_deasserted t :
      delays !! i = Some delay →
      Forall is_poll polls_asserted →
      Forall is_poll polls_deasserted →
      samples !! i = Some (duration_cast_ns (clk (S c) - clk c)) →
      trials_trace clk delays samples (S i) n (S (S c)) t →
      trials_trace clk delays samples i (S n) c
        (trial_trace delay (clk c) (clk (S c)) polls_asserted polls_deasserted
         ++ t).

End TrialsTrace.

(** The world a trial hands to the wait for the asserted state: the trial
    has slept for [delay], read the clock and driven the output HIGH, in
    this order. *)
Definition asserting (delay : Z) (w : world) : world := {|
  pin_levels := pin_levels w;
  fd_reads := fd_reads w;
  open_result := open_result w;
  device_name := device_name w;
  clock := clock w;
  clock_calls := S (clock_calls w);
  trace := trace w ++ [SleepFor delay; ClockNow (clock w (clock_calls w));
                       DigitalWrite g_pin_output HIGH]
|}.

(** The world a trial hands to the wait for the deasserted state, [w] being
    the world the first wait returned in: the trial has read the clock again
    and driven the output LOW. *)
Definition deasserting (w : world) : world := {|
  pin_levels := pin_levels w;
  fd_reads := fd_reads w;
  open_result := open_result w;
  device_name := device_name w;
  clock := clock w;
  clock_calls := S (clock_calls w);
  trace := trace w ++ [ClockNow (clock w (clock_calls w));
                       DigitalWrite g_pin_output LOW]
|}.

(** [o'] is the outcome [o], which is not a return, at another type. *)
Definition stopped {A B} (o : outcome A) (o' : outcome B) : Prop :=
  match o, o' with
  | Exited s w, Exited s' w' => s = s' ∧ w = w'
  | Aborted w, Aborted w' => w = w'
  | Blocked w, Blocked w' => w = w'
  | _, _ => False
  end.

Section TrialsSteps.
Context `{StdLib}.

(** The trials [i], ..., [i + n - 1] step by step, from the world [w] with
    the samples [times] stored so far, to the outcome of the loop.  A trial
    sleeps, reads the clock (start), drives the output HIGH and calls
    [detect(true)] in the world this gives; when that call returns, the
    clock is read in the world it returns in (stop), the nanoseconds from
    start to stop are stored at index [i], the output is driven LOW and
    [detect(false)] is called; when that call returns, the next trial starts
    in the world it returns in.  A call that does not return ends the
    loop. *)
Inductive trials_steps (detect : bool → M unit) (delays : list Z)
    : nat → nat → list Z → world → outcome (list Z) → Prop :=
  | steps_done i times w :
      trials_steps detect delays i 0 times w (Returned times w)
  | steps_next i n times w delay w_asserted w_deasserted o :
      delays !! i = Some delay →
      detect true (asserting delay w) = Returned tt w_asserted →
      detect false (deasserting w_asserted) = Returned tt w_deasserted →
      trials_steps detect delays (S i) n
        (<[i := duration_cast_ns
                  (clock w_asserted (clock_calls w_asserted)
                   - clock w (clock_calls w))]> times)
        w_deasserted o →
      trials_steps detect delays i (S n) times w o
  | steps_stop_asserted i n times w delay o o' :
      delays !! i = Some delay →
      detect true (asserting delay w) = o →
      stopped o o' →
      trials_steps detect delays i (S n) times w o'
  | steps_stop_deasserted i n times w delay w_asserted o o' :
      delays !! i = Some delay →
      detect true (asserting delay w) = Returned tt w_asserted →
      detect false (deasserting w_asserted) = o →
      stopped o o' →
      trials_steps detect delays i (S n) times w o'.

(** Between two consecutive readings of the clock, the ticks elapsed,
    converted to nanoseconds, stay below the largest 64-bit duration. *)
Definition durations_fit (clk : nat → Z) : Prop :=
  ∀ n, (clk (S n) - clk n) * Z.pos cf_num < 2 ^ 63.

End TrialsSteps.

(** What a computation answered, the world apart. *)
Inductive answer (A : Type) :=
  | Value (a : A)
  | ExitStatus (status : Z)
  | Abort
  | Block.
Arguments Value {A} a.
Arguments ExitStatus {A} status.
Arguments Abort {A}.
Arguments Block {A}.

Definition answer_of {A} (o : outcome A) : answer A :=
  match o with
  | Returned a _ => Value a
  | Exited s _ => ExitStatus s
  | Aborted _ => Abort
  | Blocked _ => Block
  end.

(** Takes one [fd] out of the descriptors held; [None] when it is not
    among them. *)
Fixpoint release (fd : Z) (held : list Z) : option (list Z) :=
  match held with
  | [] => None
  | h :: rest =>
      if h =? fd then Some rest
      else match release fd rest with
           | Some rest' => Some (h :: rest')
           | None => None
           end
  end.

(** The descriptors held after a trace, starting from [held]: an [open]
    that succeeds adds its descriptor, a [close] takes its descriptor out.
    [None] when the trace closes a descriptor that is not held (one that was
    never opened, or one closed before). *)
Fixpoint descriptors (held : list Z) (t : list action) : option (list Z) :=
  match t with
  | [] => Some held
  | Open _ fd :: t' => descriptors (if fd <? 0 then held else fd :: held) t'
  | Close fd :: t' =>
      match release fd held with
      | Some held' => descriptors held' t'
      | None => None
      end
  | _ :: t' => descriptors held t'
  end.

(** An action on the descriptor table. *)
Definition is_descriptor_action (a : action) : Prop :=
  match a with
  | Open _ _ | Close _ => True
  | _ => False
  end.

(** The path of the device [event_id]. *)
Definition event_path (event_id : Z) : string :=
  "/dev/input/event" +:+ show event_id.

(** What the enumeration adds to the trace for one [event_id]. *)
Definition enumerate_trace (w : world) (event_id : Z) : list action :=
  let fd := open_result w (event_path event_id) in
  if fd <? 0 then [Open (event_path event_id) fd]
  else [Open (event_path event_id) fd;
        IoctlName fd (device_name w fd);
        Stdout ("[" +:+ show event_id +:+ "] " +:+ device_name w fd +:+ endl);
        Close fd].

(** A backend that neither exits nor throws. *)
Definition never_fails (detect : bool → M unit) : Prop :=
  ∀ b w, match detect b w with
         | Returned _ _ | Blocked _ => True
         | Exited _ _ | Aborted _ => False
         end.

(** * Example inputs *)

(** A pin measurement of [n] trials. *)
Definition pin_config (n dmin dmax : Z) : program_config := {|
  iterations := n; delay_min := dmin; delay_max := dmax;
  pin := true; usb := None; key := None; events := false; summary := false
|}.

(** A usb measurement of [n] trials on the device 3, with the key 30
    ([KEY_A]). *)
Definition usb_config (n dmin dmax : Z) : program_config := {|
  iterations := n; delay_min := dmin; delay_max := dmax;
  pin := false; usb := Some 3; key := Some 30; events := false;
  summary := true
|}.

Definition key_event (code value : Z) : input_event := {|
  time_sec := 0; time_usec := 0;
  ev_type := EV_KEY; ev_code := code; ev_value := value
|}.

(** [EV_SYN], [SYN_REPORT]. *)
Definition syn_event : input_event := {|
  time_sec := 0; time_usec := 0; ev_type := 0; ev_code := 0; ev_value := 0
|}.

(** A world in which only [/dev/input/event3] opens, as the descriptor 5,
    and the clock advances 1000 ticks between two readings. *)
Definition example_world (pins : list Z) (reads : list (Z * input_event))
    : world := {|
  pin_levels := pins;
  fd_reads := reads;
  open_result := λ path, if String.eqb path "/dev/input/event3" then 5 else -1;
  device_name := λ _, "keyboard";
  clock := λ n, 1000 * Z.of_nat n;
  clock_calls := 0;
  trace := []
|}.

(** The world [example_world [] (seen ++ rest)] after [seen] was read off
    the descriptor 5. *)
Definition example_world_polled (seen rest : list (Z * input_event)) : world := {|
  pin_levels := [];
  fd_reads := rest;
  open_result := λ path, if String.eqb path "/dev/input/event3" then 5 else -1;
  device_name := λ _, "keyboard";
  clock := λ n, 1000 * Z.of_nat n;
  clock_calls := 0;
  trace := map (λ r, Read 5 r.1 r.2) seen
|}.

(** The same world with a clock that goes back. *)
Definition example_world_back (pins : list Z) : world := {|
  pin_levels := pins;
  fd_reads := [];
  open_result := λ _, -1;
  device_name := λ _, "keyboard";
  clock := λ n, 5000 - 1000 * Z.of_nat n;
  clock_calls := 0;
  trace := []
|}.

(** A world whose clock reads [start], then [stop] ever after. *)
Definition example_world_clock (start stop : Z) (pins : list Z) : world := {|
  pin_levels := pins;
  fd_reads := [];
  open_result := λ _, -1;
  device_name := λ _, "keyboard";
  clock := λ n, match n with O => start | S _ => stop end;
  clock_calls := 0;
  trace := []
|}.

(** The world after the pin measurement of two trials below. *)
Definition example_world_measured : world := {|
  pin_levels := [];
  fd_reads := [];
  open_result := λ path, if String.eqb path "/dev/input/event3" then 5 else -1;
  device_name := λ _, "keyboard";
  clock := λ n, 1000 * Z.of_nat n;
  clock_calls := 4;
  trace :=
    [WiringPiSetup; PinMode 0 0; PullUpDnControl 0 2; PinMode 2 1;
     DigitalWrite 2 0;
     SleepFor 131; ClockNow 0; DigitalWrite 2 1;
     DigitalRead 0 1; DigitalRead 0 0;
     ClockNow 1000; DigitalWrite 2 0;
     DigitalRead 0 0; DigitalRead 0 1;
     SleepFor 105; ClockNow 2000; DigitalWrite 2 1;
     DigitalRead 0 0;
     ClockNow 3000; DigitalWrite 2 0;
     DigitalRead 0 1]
|}.

(** * The library instance *)

(** ** Integer conversions *)

Lemma to_int_is_int u : is_int (to_int u).
Proof.
  unfold to_int, is_int. cbv zeta.
  pose proof (Z.mod_pos_bound u (2 ^ 32)) as Hr.
  destruct (Z.ltb_spec (u mod 2 ^ 32) (2 ^ 31)); lia.
Qed.

Lemma to_int_congruent u v :
  is_int v → u mod 2 ^ 32 = v mod 2 ^ 32 → to_int u = v.
Proof.
  unfold to_int, is_int. cbv zeta. intros Hv ->.
  destruct (Z.ltb_spec (v mod 2 ^ 32) (2 ^ 31)) as [Hlt | Hge].
  - destruct (Z.neg_nonneg_cases v) as [Hneg | Hpos].
    + replace v with (v + 2 ^ 32 - 1 * 2 ^ 32) in Hlt at 1 by lia.
      rewrite Zminus_mod, Z_mod_mult, Z.sub_0_r, Z.mod_mod in Hlt by lia.
      rewrite Z.mod_small in Hlt; lia.
    + apply Z.mod_small. lia.
  - destruct (Z.neg_nonneg_cases v) as [Hneg | Hpos].
    + replace v with (v + 2 ^ 32 - 1 * 2 ^ 32) at 1 by lia.
      rewrite Zminus_mod, Z_mod_mult, Z.sub_0_r, Z.mod_mod by lia.
      rewrite Z.mod_small; lia.
    + rewrite Z.mod_small in Hge; lia.
Qed.

Lemma to_int_to_unsigned v : is_int v → to_int (to_unsigned v) = v.
Proof.
  intros Hv. apply to_int_congruent; [done |].
  unfold to_unsigned. apply Z.mod_mod. lia.
Qed.

Lemma unsigned_difference a b :
  is_int a → is_int b → a ≤ b →
  (to_unsigned b - to_unsigned a) mod 2 ^ 32 = b - a.
Proof.
  unfold is_int, to_unsigned. intros Ha Hb Hab.
  rewrite <- Zminus_mod. apply Z.mod_small. lia.
Qed.

Lemma unsigned_sum_to_int q a :
  is_int (q + a) → to_int ((q + to_unsigned a) mod 2 ^ 32) = q + a.
Proof.
  intros Hv. apply to_int_congruent; [done |].
  unfold to_unsigned. rewrite Z.mod_mod by lia.
  apply Zplus_mod_idemp_r.
Qed.

(** ** The libstdc++ distribution stays in its range *)

Lemma draw_below_bound turns past g v g' :
  Libstdcxx.draw_below turns past g = Some (v, g') → 0 ≤ v < past.
Proof.
  revert g. induction turns as [| n IH]; intros g;
    cbn [Libstdcxx.draw_below]; [discriminate |].
  cbv zeta. generalize (Libstdcxx.next g). intros [z g1]. cbn [fst snd].
  destruct (Z.leb_spec past ((to_unsigned z - Libstdcxx.urngmin) mod 2 ^ 32))
    as [Hge | Hlt].
  - apply IH.
  - intros [= <- <-]. split; [| exact Hlt].
    apply Z.mod_pos_bound. lia.
Qed.

Lemma uniform_int_classic_range a b g v g' :
  is_int a → is_int b → a ≤ b →
  Libstdcxx.uniform_int_classic a b g = Some (v, g') → a ≤ v ≤ b.
Proof.
  intros Ha Hb Hab. unfold Libstdcxx.uniform_int_classic. cbv zeta.
  rewrite unsigned_difference by done.
  assert (Hrange : Libstdcxx.urngmax - Libstdcxx.urngmin = 2 ^ 32 - 1)
    by reflexivity.
  rewrite Hrange.
  destruct (Z.ltb_spec (b - a) (2 ^ 32 - 1)) as [Hdown | Hup].
  - destruct (Libstdcxx.draw_below _ _ g) as [[r g1] |] eqn:Hdraw;
      [| discriminate].
    intros [= <- <-].
    apply draw_below_bound in Hdraw.
    assert (Hscale : 0 < (2 ^ 32 - 1) / (b - a + 1)).
    { apply Z.div_str_pos. lia. }
    assert (Hq : 0 ≤ r / ((2 ^ 32 - 1) / (b - a + 1)) < b - a + 1).
    { split; [apply Z.div_pos; lia |].
      apply Z.div_lt_upper_bound; lia. }
    rewrite unsigned_sum_to_int; [lia |].
    unfold is_int in *. lia.
  - destruct (Z.ltb_spec (2 ^ 32 - 1) (b - a)) as [Himp | Heq];
      [discriminate |].
    generalize (Libstdcxx.next g). intros [z g1]. cbn [fst snd].
    intros [= <- <-].
    pose proof (to_int_is_int
      (((to_unsigned z - Libstdcxx.urngmin) mod 2 ^ 32
        + to_unsigned a) mod 2 ^ 32)) as Hv.
    unfold is_int in *. lia.
Qed.

Lemma to_unsigned_range v : 0 ≤ to_unsigned v < 2 ^ 32.
Proof. unfold to_unsigned. apply Z.mod_pos_bound. lia. Qed.

Lemma nd_retry_bound turns range threshold product g product' g' :
  0 < range < 2 ^ 32 →
  0 ≤ product < 2 ^ 32 * range →
  Libstdcxx.nd_retry turns range threshold product g = Some (product', g') →
  0 ≤ product' < 2 ^ 32 * range.
Proof.
  intros Hrange. revert product g.
  induction turns as [| n IH]; intros product g Hproduct;
    cbn [Libstdcxx.nd_retry]; cbv zeta;
    destruct (product mod 2 ^ 32 <? threshold).
  - discriminate.
  - by intros [= <- <-].
  - generalize (Libstdcxx.next g). intros [z g1]. cbn [fst snd].
    apply IH.
    pose proof (to_unsigned_range z).
    assert (0 ≤ to_unsigned z * range < 2 ^ 32 * range) by nia.
    rewrite Z.mod_small by lia. lia.
  - by intros [= <- <-].
Qed.

Lemma _S_nd_bound range g v g' :
  0 < range < 2 ^ 32 →
  Libstdcxx._S_nd range g = Some (v, g') → 0 ≤ v < range.
Proof.
  intros Hrange. unfold Libstdcxx._S_nd. cbv zeta.
  generalize (Libstdcxx.next g). intros [z g1]. cbn [fst snd].
  pose proof (to_unsigned_range z) as Hz.
  assert (Hproduct : 0 ≤ (to_unsigned z * range) mod 2 ^ 64 < 2 ^ 32 * range).
  { assert (0 ≤ to_unsigned z * range < 2 ^ 32 * range) by nia.
    rewrite Z.mod_small by lia. lia. }
  assert (Hshift : ∀ product, 0 ≤ product < 2 ^ 32 * range →
                     0 ≤ Z.shiftr product 32 < range).
  { intros product Hp. rewrite Z.shiftr_div_pow2 by lia.
    split; [apply Z.div_pos; lia | apply Z.div_lt_upper_bound; lia]. }
  destruct (_ <? range).
  - destruct (Libstdcxx.nd_retry _ _ _ _ _) as [[product g2] |] eqn:Hretry;
      [| discriminate].
    intros [= <- <-]. apply Hshift.
    eapply nd_retry_bound; [exact Hrange | exact Hproduct | exact Hretry].
  - intros [= <- <-]. by apply Hshift.
Qed.

Lemma uniform_int_range a b g v g' :
  is_int a → is_int b → a ≤ b →
  Libstdcxx.uniform_int a b g = Some (v, g') → a ≤ v ≤ b.
Proof.
  intros Ha Hb Hab. unfold Libstdcxx.uniform_int. cbv zeta.
  rewrite unsigned_difference by done.
  assert (Hrange : Libstdcxx.urngmax - Libstdcxx.urngmin = 2 ^ 32 - 1)
    by reflexivity.
  rewrite Hrange.
  destruct (Z.ltb_spec (b - a) (2 ^ 32 - 1)) as [Hdown | Hup].
  - destruct (Libstdcxx._S_nd _ g) as [[r g1] |] eqn:Hdraw; [| discriminate].
    intros [= <- <-].
    apply _S_nd_bound in Hdraw; [| lia].
    rewrite unsigned_sum_to_int; [lia |].
    unfold is_int in *. lia.
  - destruct (Z.ltb_spec (2 ^ 32 - 1) (b - a)) as [Himp | Heq];
      [discriminate |].
    generalize (Libstdcxx.next g). intros [z g1]. cbn [fst snd].
    intros [= <- <-].
    pose proof (to_int_is_int
      (((to_unsigned z - Libstdcxx.urngmin) mod 2 ^ 32
        + to_unsigned a) mod 2 ^ 32)) as Hv.
    unfold is_int in *. lia.
Qed.

(** libstdc++ with a clock that ticks in nanoseconds. *)
#[export] Instance libstdcxx : StdLib := {|
  engine := Libstdcxx.mt_state;
  mt19937 := Libstdcxx.seed;
  uniform_int_distribution := Libstdcxx.uniform_int;
  uniform_int_distribution_range := uniform_int_range;
  cf_num := 1;
  cf_den := 1
|}.

(** The same with the distribution of the releases before GCC 11. *)
Definition libstdcxx_classic : StdLib := {|
  engine := Libstdcxx.mt_state;
  mt19937 := Libstdcxx.seed;
  uniform_int_distribution := Libstdcxx.uniform_int_classic;
  uniform_int_distribution_range := uniform_int_classic_range;
  cf_num := 1;
  cf_den := 1
|}.

(** The engine is the one of the standard: the 10000th number of a
    default-constructed [std::mt19937] is 4123659995 ([rand.predef]). *)
Example mt19937_10000th :
  Libstdcxx.discard_then_last (Z.to_nat 10000) 0 (Libstdcxx.seed Libstdcxx.default_seed) = 4123659995.
Proof. vm_compute. reflexivity. Qed.

(** The first ten delays of the default range, as a program built with
    GCC 12 draws them. *)
Example default_delays :
  generate 10 (uniform_int_distribution 10000 20000) (mt19937 30378)
  = Some [13132; 10551; 16901; 17805; 13248; 15133; 10542; 18037; 13987; 12022].
Proof. vm_compute. reflexivity. Qed.

(** The two distributions do not draw the same delays: the sixth differs. *)
Example default_delays_classic :
  @generate libstdcxx_classic 10
    (@uniform_int_distribution libstdcxx_classic 10000 20000)
    (@mt19937 libstdcxx_classic 30378)
  = Some [13132; 10551; 16901; 17805; 13248; 15134; 10542; 18037; 13987; 12022].
Proof. vm_compute. reflexivity. Qed.

(** * The detection backends *)

Lemma pin_polled_twice s1 r1 s2 r2 w :
  pin_polled s2 r2 (pin_polled s1 r1 w) = pin_polled (s1 ++ s2) r2 w.
Proof.
  unfold pin_polled. cbn. f_equal.
  rewrite map_app. symmetry. apply app_assoc.
Qed.

Lemma fd_polled_twice fd s1 r1 s2 r2 w :
  fd_polled fd s2 r2 (fd_polled fd s1 r1 w) = fd_polled fd (s1 ++ s2) r2 w.
Proof.
  unfold fd_polled. cbn. f_equal.
  rewrite map_app. symmetry. apply app_assoc.
Qed.

Lemma pin_polled_nil w : pin_polled [] (pin_levels w) w = w.
Proof. destruct w. unfold pin_polled. cbn. by rewrite app_nil_r. Qed.

Lemma fd_polled_nil fd w : fd_polled fd [] (fd_reads w) w = w.
Proof. destruct w. unfold fd_polled. cbn. by rewrite app_nil_r. Qed.

(** ** The polling loops, one turn at a time *)

Lemma loop_S n body w :
  loop (S n) body w =
  match body w with
  | Returned stop w' => if stop then Returned tt w' else loop n body w'
  | Exited s w' => Exited s w'
  | Aborted w' => Aborted w'
  | Blocked w' => Blocked w'
  end.
Proof.
  cbn [loop]. unfold bind.
  destruct (body w) as [[] w' | s w' | w' | w']; reflexivity.
Qed.

Lemma detect_pin_body_turn pressed w :
  detect_pin_body pressed w =
  match pin_levels w with
  | [] => Blocked w
  | level :: rest =>
      Returned (truthy (pin_condition level pressed)) (pin_polled [level] rest w)
  end.
Proof.
  unfold detect_pin_body, bind, digitalRead.
  destruct (pin_levels w) as [| level rest]; [reflexivity |].
  destruct (truthy (pin_condition level pressed)); reflexivity.
Qed.

Lemma detect_usb_body_turn config fd pressed w :
  detect_usb_body config fd pressed w =
  match fd_reads w with
  | [] => Blocked w
  | (r, keyboard_event) :: rest =>
      Returned
        (negb (r =? -1) && truthy (usb_condition config keyboard_event pressed))
        (fd_polled fd [(r, keyboard_event)] rest w)
  end.
Proof.
  unfold detect_usb_body, bind, read.
  destruct (fd_reads w) as [| [r keyboard_event] rest]; [reflexivity |].
  cbn [fst snd]. destruct (r =? -1); [reflexivity |].
  destruct (truthy (usb_condition config keyboard_event pressed)); reflexivity.
Qed.

Lemma detect_pin_unfold pressed w :
  detect_pin pressed w =
  match pin_levels w with
  | [] => Blocked w
  | level :: rest =>
      if truthy (pin_condition level pressed)
      then Returned tt (pin_polled [level] rest w)
      else detect_pin pressed (pin_polled [level] rest w)
  end.
Proof.
  unfold detect_pin, while_true. rewrite loop_S, detect_pin_body_turn.
  destruct (pin_levels w) as [| level rest] eqn:Hpin; [reflexivity |].
  unfold pending. rewrite Hpin. reflexivity.
Qed.

Lemma detect_usb_unfold config fd pressed w :
  detect_usb config fd pressed w =
  match fd_reads w with
  | [] => Blocked w
  | (r, keyboard_event) :: rest =>
      if negb (r =? -1) && truthy (usb_condition config keyboard_event pressed)
      then Returned tt (fd_polled fd [(r, keyboard_event)] rest w)
      else detect_usb config fd pressed (fd_polled fd [(r, keyboard_event)] rest w)
  end.
Proof.
  unfold detect_usb, while_true. rewrite loop_S, detect_usb_body_turn.
  destruct (fd_reads w) as [| [r keyboard_event] rest] eqn:Hfd; [reflexivity |].
  unfold pending. rewrite Hfd. cbn [length fd_reads fd_polled pin_levels].
  rewrite Nat.add_succ_r. reflexivity.
Qed.

(** What the two conditions decide. *)
Lemma pin_condition_differs level pressed :
  truthy (pin_condition level pressed) = true ↔ level ≠ bool_to_int pressed.
Proof.
  unfold truthy, pin_condition.
  destruct (Z.eqb_spec level (bool_to_int pressed)); cbn; split; done.
Qed.

Lemma pin_condition_active_low level pressed :
  is_level level →
  truthy (pin_condition level pressed) = true ↔ level = active_low pressed.
Proof.
  intros Hlevel. rewrite pin_condition_differs.
  unfold is_level, LOW, HIGH in Hlevel.
  destruct pressed; cbn; unfold LOW, HIGH; lia.
Qed.

(** On a value that is no level the condition follows the way line 206
    parses, [(digitalRead(...) == pressed) ? LOW : HIGH]: a read of 2 ends
    both waits. *)
Example pin_condition_not_a_level :
  truthy (pin_condition 2 true) = true ∧ truthy (pin_condition 2 false) = true.
Proof. split; reflexivity. Qed.

Lemma usb_condition_matches config k keyboard_event pressed :
  key config = Some k →
  truthy (usb_condition config keyboard_event pressed) = true
  ↔ key_event_matches k pressed keyboard_event.
Proof.
  intros Hkey. unfold truthy, usb_condition, key_event_matches, eq_optional.
  rewrite Hkey.
  replace (bool_to_int pressed) with (if pressed then 1 else 0) by done.
  destruct (Z.eqb_spec (ev_type keyboard_event) EV_KEY);
    destruct (Z.eqb_spec (ev_code keyboard_event) k);
    destruct (Z.eqb_spec (ev_value keyboard_event) (if pressed then 1 else 0));
    cbn; split; try done; intros (? & ? & ?); done.
Qed.

(** The GPIO loop reads on while the condition is false. *)
Lemma detect_pin_skips pressed before rest w :
  Forall (λ level, truthy (pin_condition level pressed) = false) before →
  pin_levels w = before ++ rest →
  detect_pin pressed w = detect_pin pressed (pin_polled before rest w).
Proof.
  revert w. induction before as [| level before IH]; intros w Hskip Hpin.
  - cbn in Hpin. by rewrite <- Hpin, pin_polled_nil.
  - apply Forall_cons in Hskip as [Hlevel Hskip].
    rewrite detect_pin_unfold, Hpin. cbn [app]. rewrite Hlevel.
    rewrite (IH (pin_polled [level] (before ++ rest) w)); [| done | done].
    by rewrite pin_polled_twice.
Qed.

(** The evdev loop reads on after a failed read and after a record that
    does not satisfy the condition. *)
Lemma detect_usb_skips config fd pressed before rest w :
  Forall (λ r, r.1 = -1 ∨ truthy (usb_condition config r.2 pressed) = false)
    before →
  fd_reads w = before ++ rest →
  detect_usb config fd pressed w
  = detect_usb config fd pressed (fd_polled fd before rest w).
Proof.
  revert w. induction before as [| [r e] before IH]; intros w Hskip Hfd.
  - cbn in Hfd. by rewrite <- Hfd, fd_polled_nil.
  - apply Forall_cons in Hskip as [Hr Hskip]. cbn [fst snd] in Hr.
    rewrite detect_usb_unfold, Hfd. cbn [app].
    rewrite (IH (fd_polled fd [(r, e)] (before ++ rest) w)); [| done | done].
    rewrite fd_polled_twice. cbn [app].
    destruct (Z.eqb_spec r (-1)); [done |].
    destruct Hr as [Hr | Hr]; [done |]. by rewrite Hr.
Qed.

(** C1.  The GPIO backend's [await_state(asserted)], over pin levels: it
    returns at the first read that shows the active-low level of [asserted]
    (LOW when asserted, HIGH when not), having done nothing but read the pin
    once per turn; and as long as no read shows that level it is still
    polling. *)
Theorem detect_pin_returns_at_first_active_low (asserted : bool) (w : world) :
  (∀ before after,
     pin_levels w = before ++ active_low asserted :: after →
     Forall is_level before →
     active_low asserted ∉ before →
     detect_pin asserted w
     = Returned tt (pin_polled (before ++ [active_low asserted]) after w))
  ∧ (Forall is_level (pin_levels w) →
     active_low asserted ∉ pin_levels w →
     detect_pin asserted w = Blocked (pin_polled (pin_levels w) [] w)).
Proof.
  assert (Hskip : ∀ levels, Forall is_level levels →
    active_low asserted ∉ levels →
    Forall (λ level, truthy (pin_condition level asserted) = false) levels).
  { intros levels Hlevels Hnot. apply Forall_forall. intros level Hin.
    destruct (truthy (pin_condition level asserted)) eqn:Hcond; [| done].
    apply pin_condition_active_low in Hcond.
    - by subst level.
    - by apply (proj1 (Forall_forall _ _) Hlevels). }
  split.
  - intros before after Hpin Hlevels Hnot.
    rewrite (detect_pin_skips asserted before (active_low asserted :: after) w);
      [| by apply Hskip | done].
    rewrite detect_pin_unfold. cbn [pin_levels pin_polled].
    assert (Hhit : truthy (pin_condition (active_low asserted) asserted) = true).
    { apply pin_condition_active_low; [| done].
      destruct asserted; [by left | by right]. }
    rewrite Hhit.
    change (Returned tt (pin_polled [active_low asserted] after
              (pin_polled before (active_low asserted :: after) w))
            = Returned tt (pin_polled (before ++ [active_low asserted]) after w)).
    by rewrite pin_polled_twice.
  - intros Hlevels Hnot.
    rewrite (detect_pin_skips asserted (pin_levels w) [] w);
      [| by apply Hskip | by rewrite app_nil_r].
    by rewrite detect_pin_unfold.
Qed.

(** Two reads of HIGH, then LOW: the wait for the asserted state ends at the
    third read and leaves the fourth. *)
Lemma detect_pin_returns_at_first_active_low_witness :
  detect_pin true (example_world [HIGH; HIGH; LOW; HIGH] [])
  = Returned tt
      (pin_polled [HIGH; HIGH; LOW] [HIGH]
         (example_world [HIGH; HIGH; LOW; HIGH] [])).
Proof.
  apply (proj1 (detect_pin_returns_at_first_active_low true
                  (example_world [HIGH; HIGH; LOW; HIGH] []))
           [HIGH; HIGH] [HIGH]).
  - reflexivity.
  - repeat constructor; by right.
  - vm_compute. intros Hin.
    repeat (apply elem_of_cons in Hin as [Hin | Hin]; [discriminate |]).
    by apply elem_of_nil in Hin.
Defined.

(** C2.  The evdev backend's [await_state(asserted)], over records that
    were read successfully: it returns at the first record that is a key
    event (type [EV_KEY]) for the configured key with value 1 when
    [asserted] and 0 when not, having read and dropped the records before
    it; and as long as no record is such an event it is still polling. *)
Theorem detect_usb_returns_at_first_matching_event
    (config : program_config) (k fd : Z) (asserted : bool) (w : world) :
  key config = Some k →
  (∀ before r e after,
     fd_reads w = before ++ (r, e) :: after →
     Forall (λ x, x.1 ≠ -1) (before ++ [(r, e)]) →
     Forall (λ x, ¬ key_event_matches k asserted x.2) before →
     key_event_matches k asserted e →
     detect_usb config fd asserted w
     = Returned tt (fd_polled fd (before ++ [(r, e)]) after w))
  ∧ (Forall (λ x, x.1 ≠ -1) (fd_reads w) →
     Forall (λ x, ¬ key_event_matches k asserted x.2) (fd_reads w) →
     detect_usb config fd asserted w = Blocked (fd_polled fd (fd_reads w) [] w)).
Proof.
  intros Hkey.
  assert (Hskip : ∀ records,
    Forall (λ x, ¬ key_event_matches k asserted x.2) records →
    Forall (λ x, x.1 = -1 ∨ truthy (usb_condition config x.2 asserted) = false)
      records).
  { intros records Hrecords. eapply Forall_impl; [exact Hrecords |].
    intros [r e] Hno. right. cbn [snd] in *.
    destruct (truthy (usb_condition config e asserted)) eqn:Hcond; [| done].
    by apply (usb_condition_matches config k) in Hcond. }
  split.
  - intros before r e after Hfd Hread Hno Hhit.
    rewrite (detect_usb_skips config fd asserted before ((r, e) :: after) w);
      [| by apply Hskip | done].
    rewrite detect_usb_unfold. cbn [fd_reads fd_polled].
    apply Forall_app in Hread as [_ Hr]. apply Forall_inv in Hr.
    cbn [fst] in Hr. apply Z.eqb_neq in Hr. rewrite Hr.
    apply (usb_condition_matches config k) in Hhit; [| done]. rewrite Hhit.
    cbn [negb andb].
    change (Returned tt (fd_polled fd [(r, e)] after
              (fd_polled fd before ((r, e) :: after) w))
            = Returned tt (fd_polled fd (before ++ [(r, e)]) after w)).
    by rewrite fd_polled_twice.
  - intros _ Hno.
    rewrite (detect_usb_skips config fd asserted (fd_reads w) [] w);
      [| by apply Hskip | by rewrite app_nil_r].
    by rewrite detect_usb_unfold.
Qed.

(** A sync event, a repeat of the key and a press of another key are
    dropped; the press of the key 30 ends the wait for the asserted state. *)
Lemma detect_usb_returns_at_first_matching_event_witness :
  detect_usb (usb_config 1 100 200) 5 true
    (example_world []
       [(24, syn_event); (24, key_event 30 2); (24, key_event 31 1);
        (24, key_event 30 1); (24, key_event 30 0)])
  = Returned tt
      (fd_polled 5
         [(24, syn_event); (24, key_event 30 2); (24, key_event 31 1);
          (24, key_event 30 1)]
         [(24, key_event 30 0)]
         (example_world []
            [(24, syn_event); (24, key_event 30 2); (24, key_event 31 1);
             (24, key_event 30 1); (24, key_event 30 0)])).
Proof.
  apply (proj1 (detect_usb_returns_at_first_matching_event
                  (usb_config 1 100 200) 30 5 true _ eq_refl)
           [(24, syn_event); (24, key_event 30 2); (24, key_event 31 1)]
           24 (key_event 30 1) [(24, key_event 30 0)]).
  - reflexivity.
  - repeat constructor; discriminate.
  - repeat constructor; cbn; intros (Htype & Hcode & Hvalue); discriminate.
  - repeat split.
Defined.

(** C10.  One [read] of the evdev loop, the key being set.  A [read] that
    returns -1 is retried at once, whatever the buffer holds, a key event
    that matches included.  After any other return value (0 and short
    counts too) the buffer is inspected as an event: the wait returns when
    it is a key event of the configured key in the state waited for, and
    reads on when it is not. *)
Theorem detect_usb_retries_only_on_minus_one
    (config : program_config) (k : Z) (fd : Z) (pressed : bool)
    (r : Z) (keyboard_event : input_event) (rest : list (Z * input_event))
    (w : world) :
  key config = Some k →
  fd_reads w = (r, keyboard_event) :: rest →
  (r = -1 →
   detect_usb config fd pressed w
   = detect_usb config fd pressed (fd_polled fd [(r, keyboard_event)] rest w))
  ∧ (r ≠ -1 →
     key_event_matches k pressed keyboard_event →
     detect_usb config fd pressed w
     = Returned tt (fd_polled fd [(r, keyboard_event)] rest w))
  ∧ (r ≠ -1 →
     ¬ key_event_matches k pressed keyboard_event →
     detect_usb config fd pressed w
     = detect_usb config fd pressed (fd_polled fd [(r, keyboard_event)] rest w)).
Proof.
  intros Hkey Hfd. rewrite detect_usb_unfold, Hfd.
  pose proof (usb_condition_matches config k keyboard_event pressed Hkey)
    as Hmatches.
  split_and!.
  - intros ->. reflexivity.
  - intros Hr Hmatch. apply Z.eqb_neq in Hr. apply Hmatches in Hmatch.
    by rewrite Hr, Hmatch.
  - intros Hr Hmatch. apply Z.eqb_neq in Hr. rewrite Hr.
    destruct (truthy (usb_condition config keyboard_event pressed));
      [| reflexivity].
    destruct Hmatch. by apply Hmatches.
Qed.

(** Three reads while waiting for a press of the key 30.  The first returns
    -1 and is retried, though the buffer holds a press of the key 30.  The
    second returns 0 with a press of the key 31 in the buffer: the buffer is
    inspected, does not match, and the loop reads on.  The third returns a
    short count of 8 with a press of the key 30 in the buffer: the wait
    ends. *)
Lemma detect_usb_retries_only_on_minus_one_witness :
  detect_usb (usb_config 1 100 200) 5 true
    (example_world []
       [(-1, key_event 30 1); (0, key_event 31 1); (8, key_event 30 1)])
  = detect_usb (usb_config 1 100 200) 5 true
      (example_world_polled [(-1, key_event 30 1)]
         [(0, key_event 31 1); (8, key_event 30 1)])
  ∧ detect_usb (usb_config 1 100 200) 5 true
      (example_world_polled [(-1, key_event 30 1)]
         [(0, key_event 31 1); (8, key_event 30 1)])
    = detect_usb (usb_config 1 100 200) 5 true
        (example_world_polled [(-1, key_event 30 1); (0, key_event 31 1)]
           [(8, key_event 30 1)])
  ∧ detect_usb (usb_config 1 100 200) 5 true
      (example_world_polled [(-1, key_event 30 1); (0, key_event 31 1)]
         [(8, key_event 30 1)])
    = Returned tt
        (example_world_polled
           [(-1, key_event 30 1); (0, key_event 31 1); (8, key_event 30 1)]
           []).
Proof.
  split_and!.
  - apply (proj1 (detect_usb_retries_only_on_minus_one
                    (usb_config 1 100 200) 30 5 true (-1) (key_event 30 1)
                    [(0, key_event 31 1); (8, key_event 30 1)]
                    (example_world []
                       [(-1, key_event 30 1); (0, key_event 31 1);
                        (8, key_event 30 1)])
                    eq_refl eq_refl)).
    reflexivity.
  - apply (proj2 (proj2 (detect_usb_retries_only_on_minus_one
                    (usb_config 1 100 200) 30 5 true 0 (key_event 31 1)
                    [(8, key_event 30 1)]
                    (example_world_polled [(-1, key_event 30 1)]
                       [(0, key_event 31 1); (8, key_event 30 1)])
                    eq_refl eq_refl))).
    + discriminate.
    + intros (_ & Hcode & _). discriminate.
  - apply (proj1 (proj2 (detect_usb_retries_only_on_minus_one
                    (usb_config 1 100 200) 30 5 true 8 (key_event 30 1) []
                    (example_world_polled
                       [(-1, key_event 30 1); (0, key_event 31 1)]
                       [(8, key_event 30 1)])
                    eq_refl eq_refl))).
    + discriminate.
    + repeat split.
Defined.

Lemma pin_polled_frame seen rest w :
  clock (pin_polled seen rest w) = clock w
  ∧ clock_calls (pin_polled seen rest w) = clock_calls w
  ∧ ∃ t, trace (pin_polled seen rest w) = trace w ++ t ∧ Forall is_poll t.
Proof.
  repeat split. exists (map (DigitalRead g_pin_input) seen).
  split; [reflexivity |]. apply Forall_map, Forall_true. intros level. exact I.
Qed.

Lemma fd_polled_frame fd seen rest w :
  clock (fd_polled fd seen rest w) = clock w
  ∧ clock_calls (fd_polled fd seen rest w) = clock_calls w
  ∧ ∃ t, trace (fd_polled fd seen rest w) = trace w ++ t ∧ Forall is_poll t.
Proof.
  repeat split. exists (map (λ r, Read fd r.1 r.2) seen).
  split; [reflexivity |]. apply Forall_map, Forall_true. intros r. exact I.
Qed.

(** The GPIO loop returns or is still polling, and has only read the pin. *)
Lemma detect_pin_outcome pressed w :
  ∃ seen rest,
    detect_pin pressed w = Returned tt (pin_polled seen rest w)
    ∨ detect_pin pressed w = Blocked (pin_polled seen rest w).
Proof.
  remember (pin_levels w) as levels eqn:Hpin. revert w Hpin.
  induction levels as [| level levels IH]; intros w Hpin;
    rewrite detect_pin_unfold, <- Hpin.
  - exists [], (pin_levels w). right. by rewrite pin_polled_nil.
  - destruct (truthy (pin_condition level pressed)).
    + exists [level], levels. by left.
    + destruct (IH (pin_polled [level] levels w)) as (seen & rest & Hw);
        [reflexivity |].
      exists ([level] ++ seen), rest.
      destruct Hw as [-> | ->]; rewrite pin_polled_twice; [by left | by right].
Qed.

(** So does the evdev loop, which has only read the descriptor. *)
Lemma detect_usb_outcome config fd pressed w :
  ∃ seen rest,
    detect_usb config fd pressed w = Returned tt (fd_polled fd seen rest w)
    ∨ detect_usb config fd pressed w = Blocked (fd_polled fd seen rest w).
Proof.
  remember (fd_reads w) as reads eqn:Hfd. revert w Hfd.
  induction reads as [| [r e] reads IH]; intros w Hfd;
    rewrite detect_usb_unfold, <- Hfd.
  - exists [], (fd_reads w). right. by rewrite fd_polled_nil.
  - destruct (negb (r =? -1) && truthy (usb_condition config e pressed)).
    + exists [(r, e)], reads. by left.
    + destruct (IH (fd_polled fd [(r, e)] reads w)) as (seen & rest & Hw);
        [reflexivity |].
      exists ([(r, e)] ++ seen), rest.
      destruct Hw as [-> | ->]; rewrite fd_polled_twice; [by left | by right].
Qed.

Lemma detect_pin_world pressed w :
  ∃ seen rest, world_of (detect_pin pressed w) = pin_polled seen rest w.
Proof.
  destruct (detect_pin_outcome pressed w) as (seen & rest & [-> | ->]);
    by exists seen, rest.
Qed.

Lemma detect_usb_world config fd pressed w :
  ∃ seen rest,
    world_of (detect_usb config fd pressed w) = fd_polled fd seen rest w.
Proof.
  destruct (detect_usb_outcome config fd pressed w) as (seen & rest & [-> | ->]);
    by exists seen, rest.
Qed.

Lemma detect_pin_polls_only : polls_only detect_pin.
Proof.
  intros pressed w. destruct (detect_pin_world pressed w) as (seen & rest & ->).
  apply pin_polled_frame.
Qed.

Lemma detect_usb_polls_only config fd : polls_only (detect_usb config fd).
Proof.
  intros pressed w.
  destruct (detect_usb_world config fd pressed w) as (seen & rest & ->).
  apply fd_polled_frame.
Qed.

(** * The measurement loop *)

Section Trials.
Context `{StdLib}.

Lemma measure_trials_spec detect delays :
  polls_only detect →
  ∀ n i times w times' w',
    measure_trials detect delays n i times w = Returned times' w' →
    (i + n ≤ length times)%nat →
    clock w' = clock w
    ∧ clock_calls w' = (clock_calls w + 2 * n)%nat
    ∧ length times' = length times
    ∧ (∃ t, trace w' = trace w ++ t
            ∧ trials_trace (clock w) delays times' i n (clock_calls w) t)
    ∧ (∀ j, (j < i)%nat → times' !! j = times !! j)
    ∧ (∀ j, (i ≤ j < i + n)%nat →
         times' !! j
         = Some (duration_cast_ns
                   (clock w (clock_calls w + 2 * (j - i) + 1)%nat
                    - clock w (clock_calls w + 2 * (j - i))%nat))).
Proof.
  intros Hpolls. induction n as [| n IH]; intros i times w times' w' Hrun Hlen.
  - cbn in Hrun. injection Hrun as <- <-.
    repeat split; [lia | | lia].
    exists []. split; [by rewrite app_nil_r | constructor].
  - cbn [measure_trials] in Hrun.
    destruct (delays !! i) as [delay |] eqn:Hdelay; [| discriminate].
    unfold bind, sleep_for, emit, now, digitalWrite, emit in Hrun.
    cbn [trace clock clock_calls with_trace] in Hrun.
    match type of Hrun with
    | context [detect true ?w3] =>
        destruct (Hpolls true w3) as (Hclk3 & Hcalls3 & t3 & Htrace3 & Hpoll3);
        destruct (detect true w3) as [[] w4 | | |]; [| discriminate..]
    end.
    match type of Hrun with
    | context [detect false ?w6] =>
        destruct (Hpolls false w6) as (Hclk6 & Hcalls6 & t6 & Htrace6 & Hpoll6);
        destruct (detect false w6) as [[] w7 | | |]; [| discriminate..]
    end.
    cbn [world_of clock clock_calls trace with_trace] in *.
    apply IH in Hrun as (Hclk & Hcalls & Hlength & (t & Htrace & Htrials)
                         & Hbelow & Hsamples);
      [| rewrite length_insert; lia].
    rewrite length_insert in Hlength.
    rewrite Hclk6, Hclk3 in Hclk. rewrite Hcalls6, Hcalls3 in Hcalls.
    rewrite Hclk6, Hclk3, Hcalls6, Hcalls3 in Htrials.
    rewrite Hclk6, Hclk3, Hcalls6, Hcalls3 in Hsamples.
    rewrite Hclk3, Hcalls3 in Hbelow.
    repeat split; [done | lia | done | | |].
    + exists (trial_trace delay (clock w (clock_calls w))
                (clock w (S (clock_calls w))) t3 t6 ++ t).
      split.
      * rewrite Htrace, Htrace6, Htrace3, Hclk3, Hcalls3. unfold trial_trace.
        rewrite <- !app_assoc. reflexivity.
      * constructor; [done | done | done | | done].
        rewrite Hbelow by lia. by rewrite list_lookup_insert_eq by lia.
    + intros j Hj. rewrite Hbelow by lia.
      apply list_lookup_insert_ne. lia.
    + intros j Hj. destruct (decide (j = i)) as [-> | Hne].
      * rewrite Hbelow by lia. rewrite list_lookup_insert_eq by lia.
        do 3 f_equal; f_equal; lia.
      * rewrite Hsamples by lia. do 3 f_equal; f_equal; lia.
Qed.

(** [generate] fills as many elements as it is asked for. *)
Lemma generate_length n gen g delays :
  generate n gen g = Some delays → length delays = n.
Proof.
  revert g delays. induction n as [| n IH]; intros g delays; cbn.
  - by intros [= <-].
  - destruct (gen g) as [[v g'] |]; [| done].
    destruct (generate n gen g') as [vs |] eqn:Hrest; [| done].
    intros [= <-]. cbn. f_equal. by eapply IH.
Qed.

(** [get_delays] touches nothing; what it returns it has generated from the
    engine seeded with 30378. *)
Lemma get_delays_run config w :
  get_delays config w =
  if iterations config <? 0 then Aborted w
  else match generate (Z.to_nat (iterations config))
               (uniform_int_distribution (delay_min config) (delay_max config))
               (mt19937 30378) with
       | Some delays => Returned delays w
       | None => Blocked w
       end.
Proof.
  unfold get_delays, bind, vector_new.
  destruct (iterations config <? 0); [reflexivity |].
  unfold ret. rewrite length_replicate.
  destruct (generate _ _ _); reflexivity.
Qed.

Lemma get_delays_returned config w delays w' :
  get_delays config w = Returned delays w' →
  w' = w ∧ 0 ≤ iterations config
  ∧ generate (Z.to_nat (iterations config))
      (uniform_int_distribution (delay_min config) (delay_max config))
      (mt19937 30378) = Some delays.
Proof.
  rewrite get_delays_run.
  destruct (Z.ltb_spec (iterations config) 0) as [Hneg | Hpos]; [done |].
  destruct (generate _ _ _) as [ds |]; [| done].
  intros [= <- <-]. done.
Qed.

Lemma init_pins_run w :
  init_pins w = Returned tt (with_trace (trace w ++ init_trace) w).
Proof.
  unfold init_pins, wiringPiSetup, pinMode, pullUpDnControl, digitalWrite,
    bind, emit, with_trace, init_trace. cbn.
  rewrite <- !app_assoc. reflexivity.
Qed.

Lemma summary_run config w :
  (if summary config then print_config config else ret tt) w
  = Returned tt (with_trace (trace w ++ summary_trace config) w).
Proof.
  unfold summary_trace, print_config, cout, emit, ret.
  destruct (summary config); [reflexivity |].
  rewrite app_nil_r. by destruct w.
Qed.

(** A run of [measure_loop] that returns: the delays it generated, the
    trace it added, and the samples. *)
Lemma measure_loop_returned config detect w times w' :
  polls_only detect →
  measure_loop config detect w = Returned times w' →
  ∃ delays t,
    get_delays config w = Returned delays w
    ∧ 0 ≤ iterations config
    ∧ length delays = Z.to_nat (iterations config)
    ∧ length times = Z.to_nat (iterations config)
    ∧ trace w' = trace w ++ summary_trace config ++ init_trace ++ t
    ∧ trials_trace (clock w) delays times 0 (Z.to_nat (iterations config))
        (clock_calls w) t
    ∧ ∀ i, (i < Z.to_nat (iterations config))%nat →
        times !! i
        = Some (duration_cast_ns
                  (clock w (clock_calls w + 2 * i + 1)%nat
                   - clock w (clock_calls w + 2 * i)%nat)).
Proof.
  intros Hpolls. unfold measure_loop. unfold bind at 1.
  rewrite summary_run. unfold bind at 1. rewrite init_pins_run.
  set (w2 := with_trace _ (with_trace _ w)). unfold bind at 1.
  destruct (get_delays config w2) as [delays w2' | | |] eqn:Hdelays;
    [| discriminate..].
  apply get_delays_returned in Hdelays as (-> & Hcount & Hgen).
  unfold bind at 1, vector_new.
  destruct (Z.ltb_spec (iterations config) 0) as [Hneg | _]; [lia |].
  unfold ret at 1. intros Hrun.
  apply (measure_trials_spec detect delays Hpolls) in Hrun
    as (Hclk & Hcalls & Hlength & (t & Htrace & Htrials) & _ & Hsamples);
    [| rewrite length_replicate; lia].
  rewrite length_replicate in Hlength.
  exists delays, t. repeat split; try done.
  - rewrite get_delays_run, Hgen.
    destruct (Z.ltb_spec (iterations config) 0) as [Hneg | _]; [lia | done].
  - by apply generate_length in Hgen.
  - rewrite Htrace. subst w2. cbn [trace with_trace].
    rewrite <- !app_assoc. reflexivity.
  - intros i Hi. rewrite Hsamples by lia. subst w2. cbn [clock clock_calls with_trace].
    do 3 f_equal; f_equal; lia.
Qed.

End Trials.

(** A read that shows the awaited level ends the wait. *)
Lemma detect_pin_hit asserted rest w :
  pin_levels w = active_low asserted :: rest →
  detect_pin asserted w = Returned tt (pin_polled [active_low asserted] rest w).
Proof.
  intros Hpin. rewrite detect_pin_unfold, Hpin.
  by destruct asserted.
Qed.

Section Progress.
Context `{StdLib}.

(** With the input pin following the output (LOW after the output went
    HIGH, HIGH after it went LOW), the trials run to their end. *)
Lemma measure_trials_pin_returns delays n :
  ∀ i times w rest,
    (i + n ≤ length delays)%nat →
    pin_levels w = concat (replicate n [LOW; HIGH]) ++ rest →
    ∃ times' w',
      measure_trials detect_pin delays n i times w = Returned times' w'
      ∧ pin_levels w' = rest.
Proof.
  induction n as [| n IH]; intros i times w rest Hlen Hpin.
  - exists times, w. by split.
  - cbn [measure_trials].
    destruct (lookup_lt_is_Some_2 delays i) as [delay ->]; [lia |].
    cbn [replicate concat app] in Hpin.
    unfold bind at 1, sleep_for, emit. unfold bind at 1, now.
    unfold bind at 1, digitalWrite, emit. unfold bind at 1.
    rewrite (detect_pin_hit true (HIGH :: concat (replicate n [LOW; HIGH]) ++ rest));
      [| exact Hpin].
    unfold bind at 1, now. unfold bind at 1, digitalWrite, emit.
    unfold bind at 1.
    rewrite (detect_pin_hit false (concat (replicate n [LOW; HIGH]) ++ rest));
      [| reflexivity].
    apply IH; [lia | reflexivity].
Qed.

(** So does a pin measurement whose delays were generated. *)
Lemma measure_pin_returns config w delays rest :
  get_delays config w = Returned delays w →
  pin_levels w
  = concat (replicate (Z.to_nat (iterations config)) [LOW; HIGH]) ++ rest →
  ∃ times w', measure_pin config w = Returned times w'.
Proof.
  intros Hdelays Hpin.
  apply get_delays_returned in Hdelays as (_ & Hcount & Hgen).
  unfold measure_pin, measure_loop. unfold bind at 1.
  rewrite summary_run. unfold bind at 1. rewrite init_pins_run.
  unfold bind at 1. rewrite get_delays_run, Hgen.
  destruct (Z.ltb_spec (iterations config) 0) as [Hneg | _]; [lia |].
  unfold bind at 1, vector_new.
  destruct (Z.ltb_spec (iterations config) 0) as [Hneg | _]; [lia |].
  unfold ret at 1.
  apply generate_length in Hgen.
  match goal with
  | |- ∃ times w', measure_trials _ _ _ _ ?times0 ?w2 = _ =>
      destruct (measure_trials_pin_returns delays
                  (Z.to_nat (iterations config)) 0 times0 w2 rest)
        as (times & w' & Hrun & _); [lia | exact Hpin |]
  end.
  by exists times, w'.
Qed.

End Progress.

Section Measurement.
Context `{StdLib}.

(** One trial of the loop, the index being in range of [delays]. *)
Lemma measure_trials_S detect delays n i times w delay :
  delays !! i = Some delay →
  measure_trials detect delays (S n) i times w
  = match detect true (asserting delay w) with
    | Returned _ w_asserted =>
        match detect false (deasserting w_asserted) with
        | Returned _ w_deasserted =>
            measure_trials detect delays n (S i)
              (<[i := duration_cast_ns
                        (clock w_asserted (clock_calls w_asserted)
                         - clock w (clock_calls w))]> times)
              w_deasserted
        | Exited s w' => Exited s w'
        | Aborted w' => Aborted w'
        | Blocked w' => Blocked w'
        end
    | Exited s w' => Exited s w'
    | Aborted w' => Aborted w'
    | Blocked w' => Blocked w'
    end.
Proof.
  intros Hdelay. cbn [measure_trials]. rewrite Hdelay.
  unfold bind, sleep_for, emit, now, digitalWrite, emit.
  cbn [trace clock clock_calls with_trace pin_levels fd_reads open_result
       device_name].
  match goal with
  | |- context [detect true ?w1] =>
      replace w1 with (asserting delay w)
        by (unfold asserting; f_equal; by rewrite <- !app_assoc)
  end.
  destruct (detect true (asserting delay w)) as [[] w_asserted | | |];
    [| reflexivity..].
  match goal with
  | |- context [detect false ?w2] =>
      replace w2 with (deasserting w_asserted)
        by (unfold deasserting; f_equal; by rewrite <- !app_assoc)
  end.
  reflexivity.
Qed.

Lemma measure_trials_steps detect delays n :
  ∀ i times w,
    (i + n ≤ length delays)%nat →
    trials_steps detect delays i n times w
      (measure_trials detect delays n i times w).
Proof.
  induction n as [| n IH]; intros i times w Hlength.
  - constructor.
  - destruct (lookup_lt_is_Some_2 delays i) as [delay Hdelay]; [lia |].
    rewrite (measure_trials_S _ _ _ _ _ _ _ Hdelay).
    destruct (detect true (asserting delay w)) as [[] w_asserted | s w1 | w1 | w1]
      eqn:Hasserted.
    + destruct (detect false (deasserting w_asserted))
        as [[] w_deasserted | s w2 | w2 | w2] eqn:Hdeasserted.
      * eapply steps_next; [done.. |]. apply IH. lia.
      * by eapply steps_stop_deasserted.
      * by eapply steps_stop_deasserted.
      * by eapply steps_stop_deasserted.
    + by eapply steps_stop_asserted.
    + by eapply steps_stop_asserted.
    + by eapply steps_stop_asserted.
Qed.

(** C3.  Once the delays are generated, the measurement loop runs, after
    the optional summary and the pin set-up, the trials [0], ...,
    [config.iterations - 1] in order, and each trial [i] is: sleep for
    [delays[i]], read the clock (start), drive the output HIGH, call
    [detect(true)]; when it has returned, read the clock (stop) and store
    the nanoseconds from start to stop in [times[i]], drive the output LOW,
    call [detect(false)]; when it has returned, go on with trial [i + 1].
    The clock is not read around the second wait.  A wait that does not
    return ends the run where it stands; the run returns the samples when
    every wait has returned. *)
Theorem measure_loop_step_order
    (config : program_config) (detect : bool → M unit)
    (w : world) (delays : list Z) :
  get_delays config w = Returned delays w →
  trials_steps detect delays 0 (Z.to_nat (iterations config))
    (replicate (Z.to_nat (iterations config)) 0)
    (with_trace (trace w ++ summary_trace config ++ init_trace) w)
    (measure_loop config detect w).
Proof.
  intros Hdelays.
  pose proof (get_delays_returned _ _ _ _ Hdelays) as (_ & Hcount & Hgen).
  apply generate_length in Hgen.
  unfold measure_loop, bind at 1 2.
  rewrite summary_run, init_pins_run.
  cbn [trace with_trace].
  unfold bind at 1.
  replace (with_trace ((trace w ++ summary_trace config) ++ init_trace)
             (with_trace (trace w ++ summary_trace config) w))
    with (with_trace (trace w ++ summary_trace config ++ init_trace) w)
    by (unfold with_trace; cbn; by rewrite <- app_assoc).
  set (w0 := with_trace (trace w ++ summary_trace config ++ init_trace) w).
  assert (Hdelays0 : get_delays config w0 = Returned delays w0).
  { rewrite get_delays_run. rewrite get_delays_run in Hdelays.
    destruct (iterations config <? 0); [done |].
    destruct (generate _ _ _); [| done]. by injection Hdelays as ->. }
  rewrite Hdelays0. unfold bind, vector_new.
  destruct (Z.ltb_spec (iterations config) 0) as [Hneg | _]; [lia |].
  unfold ret. apply measure_trials_steps. lia.
Qed.

Lemma to_int64_id v : 0 ≤ v < 2 ^ 63 → to_int64 v = v.
Proof.
  intros Hv. unfold to_int64. cbv zeta.
  rewrite Z.mod_small by lia.
  destruct (Z.ltb_spec v (2 ^ 63)); lia.
Qed.

(** Where nothing overflows, the cast is the truncating division. *)
Lemma duration_cast_ns_exact ticks :
  0 ≤ ticks → ticks * Z.pos cf_num < 2 ^ 63 →
  duration_cast_ns ticks = Z.quot (ticks * Z.pos cf_num) (Z.pos cf_den).
Proof.
  intros Hticks Hfit. unfold duration_cast_ns.
  assert (Hnum : 1 ≤ Z.pos cf_num) by lia.
  assert (Hden : 1 ≤ Z.pos cf_den) by lia.
  assert (Hle : ticks ≤ ticks * Z.pos cf_num) by nia.
  rewrite (to_int64_id ticks) by lia.
  rewrite (to_int64_id (ticks * Z.pos cf_num)) by lia.
  apply to_int64_id.
  rewrite Z.quot_div_nonneg by lia.
  pose proof (Z.mul_div_le (ticks * Z.pos cf_num) (Z.pos cf_den)).
  pose proof (Z.div_pos (ticks * Z.pos cf_num) (Z.pos cf_den)).
  nia.
Qed.

Lemma duration_cast_ns_nonneg ticks :
  0 ≤ ticks → ticks * Z.pos cf_num < 2 ^ 63 → 0 ≤ duration_cast_ns ticks.
Proof.
  intros Hticks Hfit. rewrite duration_cast_ns_exact by done.
  apply Z.quot_pos; lia.
Qed.


(** C4.  Two invocations of [get_delays], in any two states of the world
    and under configurations that agree on iterations, delay_min and
    delay_max, give the same answer and leave the world as it was: the
    sequence is the one generated from the engine seeded with 30378. *)
Theorem get_delays_deterministic (c1 c2 : program_config) (w1 w2 : world) :
  iterations c1 = iterations c2 →
  delay_min c1 = delay_min c2 →
  delay_max c1 = delay_max c2 →
  answer_of (get_delays c1 w1) = answer_of (get_delays c2 w2)
  ∧ world_of (get_delays c1 w1) = w1
  ∧ world_of (get_delays c2 w2) = w2
  ∧ answer_of (get_delays c1 w1)
    = if iterations c1 <? 0 then Abort
      else match generate (Z.to_nat (iterations c1))
                   (uniform_int_distribution (delay_min c1) (delay_max c1))
                   (mt19937 30378) with
           | Some delays => Value delays
           | None => Block
           end.
Proof.
  intros Hcount Hmin Hmax.
  assert (Hrun : ∀ c w,
    answer_of (get_delays c w)
    = (if iterations c <? 0 then Abort
       else match generate (Z.to_nat (iterations c))
                    (uniform_int_distribution (delay_min c) (delay_max c))
                    (mt19937 30378) with
            | Some delays => Value delays
            | None => Block
            end)
    ∧ world_of (get_delays c w) = w).
  { intros c w. rewrite get_delays_run.
    destruct (iterations c <? 0); [done |].
    by destruct (generate _ _ _). }
  destruct (Hrun c1 w1) as [Ha1 Hw1]. destruct (Hrun c2 w2) as [Ha2 Hw2].
  repeat split; [| done | done | done].
  rewrite Ha1, Ha2, Hcount, Hmin, Hmax. reflexivity.
Qed.

Lemma generate_range n a b g delays :
  is_int a → is_int b → a ≤ b →
  generate n (uniform_int_distribution a b) g = Some delays →
  Forall (λ delay, a ≤ delay ≤ b) delays.
Proof.
  intros Ha Hb Hab. revert g delays.
  induction n as [| n IH]; intros g delays; cbn.
  - intros [= <-]. constructor.
  - destruct (uniform_int_distribution a b g) as [[v g'] |] eqn:Hdraw; [| done].
    destruct (generate n _ g') as [vs |] eqn:Hrest; [| done].
    intros [= <-]. constructor.
    + by eapply uniform_int_distribution_range.
    + by eapply IH.
Qed.

(** C5.  With [delay_min <= delay_max] (both of them [int]s), every delay
    that [get_delays] returns lies in the closed range
    [[delay_min, delay_max]], in microseconds; when the two are equal, every
    delay is that value. *)
Theorem get_delays_in_range
    (config : program_config) (w : world) (delays : list Z) (w' : world) :
  is_int (delay_min config) →
  is_int (delay_max config) →
  delay_min config ≤ delay_max config →
  get_delays config w = Returned delays w' →
  Forall (λ delay, delay_min config ≤ delay ≤ delay_max config) delays
  ∧ (delay_min config = delay_max config →
     Forall (λ delay, delay = delay_min config) delays).
Proof.
  intros Hmin Hmax Hle Hrun.
  apply get_delays_returned in Hrun as (_ & _ & Hgen).
  apply generate_range in Hgen; [| done..].
  split; [done |]. intros Heq.
  eapply Forall_impl; [exact Hgen |]. cbn. intros delay. lia.
Qed.

End Measurement.

(** A pin measurement of two trials, with the world it ends in. *)
Lemma measure_loop_step_order_witness :
  trials_steps detect_pin [131; 105] 0 (Z.to_nat 2) (replicate (Z.to_nat 2) 0)
    (with_trace
       (trace (example_world [HIGH; LOW; LOW; HIGH; LOW; HIGH] [])
        ++ summary_trace (pin_config 2 100 200) ++ init_trace)
       (example_world [HIGH; LOW; LOW; HIGH; LOW; HIGH] []))
    (measure_loop (pin_config 2 100 200) detect_pin
       (example_world [HIGH; LOW; LOW; HIGH; LOW; HIGH] [])).
Proof.
  apply (measure_loop_step_order (pin_config 2 100 200) detect_pin
           (example_world [HIGH; LOW; LOW; HIGH; LOW; HIGH] []) [131; 105]).
  vm_compute. reflexivity.
Defined.

(** A run whose input runs out in the second wait of its first trial stops
    there: the output was driven LOW and the pin read once more. *)
Example measure_pin_blocks_in_second_wait :
  answer_of (measure_pin (pin_config 2 100 200) (example_world [LOW; LOW] []))
  = Block
  ∧ trace (world_of (measure_pin (pin_config 2 100 200)
                       (example_world [LOW; LOW] [])))
    = init_trace
      ++ [SleepFor 131; ClockNow 0; DigitalWrite g_pin_output HIGH;
          DigitalRead g_pin_input LOW;
          ClockNow 1000; DigitalWrite g_pin_output LOW;
          DigitalRead g_pin_input LOW].
Proof. split; vm_compute; reflexivity. Qed.



(** The premise on the size of the differences is needed too: this clock
    never goes back, but the ticks between its two readings overflow the
    64-bit duration. *)
Example measure_pin_elapsed_overflow :
  monotonic (clock (example_world_clock (- 2 ^ 63) (2 ^ 63 - 1) [LOW; HIGH]))
  ∧ answer_of (measure_pin (pin_config 1 100 100)
                 (example_world_clock (- 2 ^ 63) (2 ^ 63 - 1) [LOW; HIGH]))
    = Value [-1].
Proof.
  split; [| vm_compute; reflexivity].
  intros [| i] [| j] Hij; cbn; lia.
Qed.

(** The subtraction wraps around: from the largest reading to the smallest
    is one tick. *)
Example measure_pin_clock_wrapping :
  answer_of (measure_pin (pin_config 1 100 100)
               (example_world_clock (2 ^ 63 - 1) (- 2 ^ 63) [LOW; HIGH]))
  = Value [1].
Proof. vm_compute. reflexivity. Qed.

(** A pin and a usb configuration with the same three values, in two
    worlds: the same five delays. *)
Lemma get_delays_deterministic_witness :
  answer_of (get_delays (pin_config 5 100 200) (example_world [] []))
  = answer_of (get_delays (usb_config 5 100 200) example_world_measured)
  ∧ world_of (get_delays (pin_config 5 100 200) (example_world [] []))
    = example_world [] []
  ∧ world_of (get_delays (usb_config 5 100 200) example_world_measured)
    = example_world_measured
  ∧ answer_of (get_delays (pin_config 5 100 200) (example_world [] []))
    = Value [131; 105; 169; 178; 132].
Proof.
  pose proof (get_delays_deterministic (pin_config 5 100 200)
                (usb_config 5 100 200) (example_world [] [])
                example_world_measured eq_refl eq_refl eq_refl)
    as (Hsame & Hw1 & Hw2 & Hseq).
  split; [exact Hsame |]. split; [exact Hw1 |]. split; [exact Hw2 |].
  rewrite Hseq. vm_compute. reflexivity.
Defined.

(** Five delays between 100 and 200, and with [delay_min = delay_max = 100]
    three delays of 100. *)
Lemma get_delays_in_range_witness :
  Forall (λ delay, 100 ≤ delay ≤ 200) [131; 105; 169; 178; 132]
  ∧ Forall (λ delay, delay = 100) [100; 100; 100].
Proof.
  split.
  - apply (get_delays_in_range (pin_config 5 100 200) (example_world [] [])
             [131; 105; 169; 178; 132] (example_world [] [])).
    + vm_compute. split; [discriminate | reflexivity].
    + vm_compute. split; [discriminate | reflexivity].
    + cbn. lia.
    + vm_compute. reflexivity.
  - apply (get_delays_in_range (pin_config 3 100 100) (example_world [] [])
             [100; 100; 100] (example_world [] [])).
    + vm_compute. split; [discriminate | reflexivity].
    + vm_compute. split; [discriminate | reflexivity].
    + cbn. lia.
    + vm_compute. reflexivity.
    + reflexivity.
Defined.

(** * The command line *)

Lemma help_run {A} (err : bool) w :
  help (A := A) err w
  = if err then Exited 1 (with_trace (trace w ++ [Stderr help_msg]) w)
    else Exited 0 (with_trace (trace w ++ [Stdout help_msg]) w).
Proof. by destruct err. Qed.

(** An error line followed by [help(true)]. *)
Lemma complain_run {A} (message : string) w :
  (cerr message ;;; help (A := A) true) w
  = Exited 1 (with_trace (trace w ++ [Stderr message; Stderr help_msg]) w).
Proof.
  unfold bind, cerr, emit. rewrite help_run. cbn [trace with_trace].
  unfold with_trace. cbn. by rewrite <- app_assoc.
Qed.

Lemma get_num_returned name optarg w v w' :
  get_num name optarg w = Returned v w' → w' = w.
Proof.
  destruct optarg as [val | |]; cbn [get_num].
  - by intros [= _ <-].
  - by rewrite complain_run.
  - done.
Qed.

Lemma get_positive_returned name optarg allow_zero w v w' :
  get_positive name optarg allow_zero w = Returned v w' → w' = w.
Proof.
  unfold get_positive. unfold bind at 1.
  destruct (get_num name optarg w) as [val w1 | | |] eqn:Hnum; [| done..].
  apply get_num_returned in Hnum as ->.
  destruct ((val <? 0) || (negb allow_zero && (0 =? val))).
  - by rewrite complain_run.
  - by intros [= _ <-].
Qed.

Lemma parse_option_returned o config w config' w' :
  parse_option o config w = Returned config' w' → w' = w.
Proof.
  destruct o; cbn [parse_option]; rewrite ?complain_run; unfold bind;
    try done;
    try (by intros [= _ <-]);
    try (by rewrite help_run).
  all: first
    [ destruct (get_positive _ _ _ w) as [v w1 | | |] eqn:Hget; [| done..];
      apply get_positive_returned in Hget as ->; by intros [= _ <-]
    | destruct (get_num _ _ w) as [v w1 | | |] eqn:Hget; [| done..];
      apply get_num_returned in Hget as ->; by intros [= _ <-] ].
Qed.

(** Parsing that gets through all the options has written nothing. *)
Lemma parse_options_returned argv config w config' w' :
  parse_options argv config w = Returned config' w' → w' = w.
Proof.
  revert config w. induction argv as [| o argv IH]; intros config w;
    cbn [parse_options].
  - by intros [= _ <-].
  - unfold bind.
    destruct (parse_option o config w) as [config1 w1 | | |] eqn:Hopt;
      [| done..].
    apply parse_option_returned in Hopt as ->. apply IH.
Qed.

Lemma validate_delays config w :
  delay_max config < delay_min config →
  validate config w
  = Exited 1
      (with_trace
         (trace w
          ++ [Stderr ("delaymin must be smaller or equal to delaymin" +:+ endl);
              Stderr help_msg]) w).
Proof.
  intros Hlt. unfold validate. unfold bind at 1.
  apply Z.ltb_lt in Hlt. rewrite Hlt. cbv iota. by rewrite complain_run.
Qed.

(** Evaluates the conditions of the checks once they are closed. *)
Ltac decide_checks :=
  repeat match goal with
  | |- context [if ?c then _ else _] =>
      let b := eval vm_compute in c in
      change c with b; cbv beta iota
  end.

Lemma validate_usb_without_key config event_id w :
  usb config = Some event_id →
  key config = None →
  ∃ message,
    validate config w
    = Exited 1 (with_trace (trace w ++ [Stderr message; Stderr help_msg]) w).
Proof.
  intros Husb Hkey. unfold validate. rewrite Husb, Hkey.
  destruct (delay_max config <? delay_min config), (pin config),
    (events config);
    decide_checks; eexists; cbn -[String.append help_msg]; unfold with_trace;
    cbn [pin_levels fd_reads open_result device_name clock clock_calls trace];
    rewrite <- app_assoc; reflexivity.
Qed.

Section CommandLine.
Context `{StdLib}.

(** C7.  When the options leave a configuration with
    [delay_max < delay_min], the program writes the error line and the help
    text to the error stream and exits with status 1; it does nothing
    else: no pin, no device and no clock is touched. *)
Theorem main_rejects_delay_max_below_delay_min
    (argv : list getopt_result) (config : program_config) (w w0 : world) :
  parse_options argv defaults w = Returned config w0 →
  delay_max config < delay_min config →
  main argv w
  = Exited 1
      (with_trace
         (trace w
          ++ [Stderr ("delaymin must be smaller or equal to delaymin" +:+ endl);
              Stderr help_msg]) w).
Proof.
  intros Hparse Hlt.
  pose proof (parse_options_returned _ _ _ _ _ Hparse) as ->.
  unfold main, parse_args, bind. rewrite Hparse.
  by rewrite validate_delays.
Qed.

(** C8.  When the options leave a configuration with usb set and key
    unset, the program writes one error line and the help text to the error
    stream and exits with status 1; it does nothing else, so no device is
    opened. *)
Theorem main_rejects_usb_without_key
    (argv : list getopt_result) (config : program_config) (event_id : Z)
    (w w0 : world) :
  parse_options argv defaults w = Returned config w0 →
  usb config = Some event_id →
  key config = None →
  ∃ message,
    main argv w
    = Exited 1 (with_trace (trace w ++ [Stderr message; Stderr help_msg]) w).
Proof.
  intros Hparse Husb Hkey.
  pose proof (parse_options_returned _ _ _ _ _ Hparse) as ->.
  destruct (validate_usb_without_key config event_id w Husb Hkey)
    as [message Hvalidate].
  exists message. unfold main, parse_args, bind. rewrite Hparse.
  by rewrite Hvalidate.
Qed.

End CommandLine.

(** [-d 50 -D 10 -p]. *)
Lemma main_rejects_delay_max_below_delay_min_witness :
  main [getopt_d (stoi_value 50); getopt_D (stoi_value 10); getopt_p]
    (example_world [] [])
  = Exited 1
      (with_trace
         [Stderr ("delaymin must be smaller or equal to delaymin" +:+ endl);
          Stderr help_msg]
         (example_world [] [])).
Proof.
  apply (main_rejects_delay_max_below_delay_min
           [getopt_d (stoi_value 50); getopt_D (stoi_value 10); getopt_p]
           (pin_config 1000 50 10) (example_world [] []) (example_world [] [])).
  - reflexivity.
  - cbn. lia.
Defined.

(** [-d 50 -D 10 -h]: the help option ends the process with status 0
    while the options are read, before any check of the configuration. *)
Example main_help_before_checks :
  main [getopt_d (stoi_value 50); getopt_D (stoi_value 10); getopt_h]
    (example_world [] [])
  = Exited 0 (with_trace [Stdout help_msg] (example_world [] [])).
Proof. reflexivity. Qed.

(** [-u 3] alone. *)
Lemma main_rejects_usb_without_key_witness :
  ∃ message,
    main [getopt_u (stoi_value 3)] (example_world [] [])
    = Exited 1
        (with_trace (trace (example_world [] []) ++ [Stderr message; Stderr help_msg])
           (example_world [] [])).
Proof.
  apply (main_rejects_usb_without_key [getopt_u (stoi_value 3)]
           (set_usb (Some 3) defaults) 3 (example_world [] [])
           (example_world [] [])).
  - reflexivity.
  - reflexivity.
  - reflexivity.
Defined.

(** * Device handles *)

Lemma descriptors_app held t1 t2 :
  descriptors held (t1 ++ t2)
  = match descriptors held t1 with
    | Some held' => descriptors held' t2
    | None => None
    end.
Proof.
  revert held. induction t1 as [| a t1 IH]; intros held; [reflexivity |].
  destruct a; cbn [app descriptors]; try apply IH.
  destruct (release fd held); [apply IH | reflexivity].
Qed.

Lemma descriptors_untouched held t :
  Forall (λ a, ¬ is_descriptor_action a) t → descriptors held t = Some held.
Proof.
  induction 1 as [| a t Ha _ IH]; [reflexivity |].
  destruct a; cbn [descriptors]; try exact IH; exfalso; apply Ha; exact I.
Qed.

Lemma is_poll_not_descriptor a : is_poll a → ¬ is_descriptor_action a.
Proof. destruct a; cbn; tauto. Qed.

Lemma enumerate_trace_balanced w event_id :
  descriptors [] (enumerate_trace w event_id) = Some [].
Proof.
  unfold enumerate_trace. cbv zeta.
  destruct (open_result w (event_path event_id) <? 0) eqn:Hfd; cbn; rewrite Hfd.
  - reflexivity.
  - cbn [release]. by rewrite Z.eqb_refl.
Qed.

(** ** The scope of an [Event] *)

Lemma try_Event_run {A} event_id (body : Event → M A) handler w :
  try_Event event_id body handler w =
  if open_result w (event_path event_id) <? 0
  then handler (with_trace (trace w ++ [Open (event_path event_id)
                                          (open_result w (event_path event_id))]) w)
  else
    match body {| _fd := open_result w (event_path event_id); _id := event_id |}
            (with_trace (trace w ++ [Open (event_path event_id)
                                       (open_result w (event_path event_id))]) w)
    with
    | Returned a w2 =>
        Returned a
          (with_trace (trace w2 ++ [Close (open_result w (event_path event_id))]) w2)
    | Exited s w2 => Exited s w2
    | Aborted w2 => Aborted w2
    | Blocked w2 => Blocked w2
    end.
Proof.
  unfold try_Event, Event_ctor, bind at 1 2, open. cbv zeta. fold (event_path event_id).
  destruct (Z.ltb_spec (open_result w (event_path event_id)) 0) as [Hneg | Hpos].
  - reflexivity.
  - unfold ret at 1. cbv beta iota. unfold bind at 1.
    destruct (body _ _) as [a w2 | | |]; [| reflexivity..].
    unfold Event_dtor, bind. cbn [_fd].
    destruct (Z.leb_spec 0 (open_result w (event_path event_id))); [| lia].
    reflexivity.
Qed.

Lemma detect_pin_never_fails : never_fails detect_pin.
Proof.
  intros pressed w.
  by destruct (detect_pin_outcome pressed w) as (seen & rest & [-> | ->]).
Qed.

Lemma detect_usb_never_fails config fd : never_fails (detect_usb config fd).
Proof.
  intros pressed w.
  by destruct (detect_usb_outcome config fd pressed w)
    as (seen & rest & [-> | ->]).
Qed.

Lemma enumerate_trace_with_trace t w event_id :
  enumerate_trace (with_trace t w) event_id = enumerate_trace w event_id.
Proof. reflexivity. Qed.

Lemma flat_map_balanced {X} (f : X → list action) (xs : list X) :
  (∀ x, descriptors [] (f x) = Some []) →
  descriptors [] (flat_map f xs) = Some [].
Proof.
  intros Hf. induction xs as [| x xs IH]; [reflexivity |].
  cbn [flat_map]. by rewrite descriptors_app, Hf.
Qed.

Section Handles.
Context `{StdLib}.

(** The enumeration, from any index on. *)
Lemma print_event_paths_from_run n event_id w :
  print_event_paths_from n event_id w
  = Returned tt
      (with_trace
         (trace w ++ flat_map (enumerate_trace w) (seqZ event_id (Z.of_nat n)))
         w).
Proof.
  revert event_id w. induction n as [| n IH]; intros event_id w.
  - cbn. rewrite app_nil_r. by destruct w.
  - cbn [print_event_paths_from]. unfold bind at 1. rewrite try_Event_run.
    rewrite seqZ_cons by lia.
    replace (Z.pred (Z.of_nat (S n))) with (Z.of_nat n) by lia.
    replace (Z.succ event_id) with (event_id + 1) by lia.
    cbn [flat_map]. unfold enumerate_trace at 1. cbv zeta.
    destruct (open_result w (event_path event_id) <? 0).
    + unfold ret at 1. rewrite IH. cbn [trace with_trace].
      unfold with_trace. cbn. by rewrite <- app_assoc.
    + unfold Event_name, bind, ioctl_name, cout, emit. cbn [_fd _id].
      cbn [trace device_name with_trace]. rewrite IH.
      unfold with_trace. cbn. by rewrite <- !app_assoc.
Qed.

Lemma measure_trials_never_fails detect delays :
  never_fails detect →
  ∀ n i times w,
    (i + n ≤ length delays)%nat →
    match measure_trials detect delays n i times w with
    | Returned _ _ | Blocked _ => True
    | Exited _ _ | Aborted _ => False
    end.
Proof.
  intros Hdetect. induction n as [| n IH]; intros i times w Hlen; [done |].
  cbn [measure_trials].
  destruct (lookup_lt_is_Some_2 delays i) as [delay ->]; [lia |].
  unfold bind, sleep_for, emit, now, digitalWrite, emit.
  cbn [trace clock clock_calls with_trace].
  match goal with
  | |- context [detect true ?w3] =>
      pose proof (Hdetect true w3) as H3;
      destruct (detect true w3) as [[] w4 | | |]; try done
  end.
  match goal with
  | |- context [detect false ?w6] =>
      pose proof (Hdetect false w6) as H6;
      destruct (detect false w6) as [[] w7 | | |]; try done
  end.
  apply IH. lia.
Qed.

Lemma measure_loop_never_fails config detect w :
  never_fails detect →
  0 ≤ iterations config →
  match measure_loop config detect w with
  | Returned _ _ | Blocked _ => True
  | Exited _ _ | Aborted _ => False
  end.
Proof.
  intros Hdetect Hcount. unfold measure_loop. unfold bind at 1.
  rewrite summary_run. unfold bind at 1. rewrite init_pins_run.
  unfold bind at 1. rewrite get_delays_run.
  destruct (Z.ltb_spec (iterations config) 0) as [Hneg | _]; [lia |].
  destruct (generate _ _ _) as [delays |] eqn:Hgen; [| done].
  apply generate_length in Hgen.
  unfold bind at 1, vector_new.
  destruct (Z.ltb_spec (iterations config) 0) as [Hneg | _]; [lia |].
  unfold ret at 1. apply measure_trials_never_fails; [done | lia].
Qed.

Lemma trials_trace_untouched clk delays samples i n c t :
  trials_trace clk delays samples i n c t →
  Forall (λ a, ¬ is_descriptor_action a) t.
Proof.
  induction 1 as [| i n c delay pa pd t _ Hpa Hpd _ _ IH]; [constructor |].
  unfold trial_trace. rewrite !Forall_app. repeat split; try done.
  - repeat constructor; by intros [].
  - eapply Forall_impl; [exact Hpa |]. apply is_poll_not_descriptor.
  - repeat constructor; by intros [].
  - eapply Forall_impl; [exact Hpd |]. apply is_poll_not_descriptor.
Qed.

Lemma measure_loop_untouched config detect w times w' :
  polls_only detect →
  measure_loop config detect w = Returned times w' →
  ∃ t, trace w' = trace w ++ t ∧ Forall (λ a, ¬ is_descriptor_action a) t.
Proof.
  intros Hpolls Hrun.
  destruct (measure_loop_returned config detect w times w' Hpolls Hrun)
    as (delays & t & _ & _ & _ & _ & Htrace & Htrials & _).
  exists (summary_trace config ++ init_trace ++ t). split; [done |].
  rewrite !Forall_app. repeat split.
  - unfold summary_trace. destruct (summary config); repeat constructor.
    by intros [].
  - unfold init_trace. repeat constructor; by intros [].
  - by eapply trials_trace_untouched.
Qed.

(** C9.  The descriptor of an [Event] is closed exactly once when its scope
    is left, and an [open] that fails leaves nothing to close: (1) the
    enumeration returns, after the trace written out below, which opens and
    closes each device that opens before it tries the next; (2) a usb
    measurement that returns has closed the descriptor it opened; the only
    [exit] is the one after a failed [open], with nothing opened and nothing
    closed; and no exception leaves the scope. *)
Theorem event_descriptor_released_once :
  (∀ w,
     print_event_paths w
     = Returned tt
         (with_trace (trace w ++ flat_map (enumerate_trace w) (seqZ 0 256)) w)
     ∧ descriptors [] (flat_map (enumerate_trace w) (seqZ 0 256)) = Some [])
  ∧ (∀ config event_id w,
       0 ≤ iterations config →
       match measure_usb config event_id w with
       | Returned _ w' =>
           ∃ t, trace w' = trace w ++ t ∧ descriptors [] t = Some []
       | Exited status w' =>
           open_result w (event_path event_id) < 0
           ∧ status = 1
           ∧ trace w'
             = trace w
               ++ [Open (event_path event_id)
                     (open_result w (event_path event_id));
                   Stderr ("Could not open fd for " +:+ show event_id +:+ endl)]
       | Aborted _ => False
       | Blocked _ => True
       end).
Proof.
  split.
  - intros w. split.
    + apply (print_event_paths_from_run 256 0 w).
    + apply flat_map_balanced. apply enumerate_trace_balanced.
  - intros config event_id w Hcount. unfold measure_usb.
    rewrite try_Event_run. cbv zeta. cbn [_fd].
    destruct (Z.ltb_spec (open_result w (event_path event_id)) 0)
      as [Hneg | Hpos].
    + unfold bind, cerr, emit, exit. cbn [trace with_trace].
      repeat split; [done |]. by rewrite <- app_assoc.
    + set (fd := open_result w (event_path event_id)) in *.
      set (w1 := with_trace (trace w ++ [Open (event_path event_id) fd]) w).
      pose proof (measure_loop_never_fails config (detect_usb config fd) w1
                    (detect_usb_never_fails config fd) Hcount) as Hfail.
      destruct (measure_loop config (detect_usb config fd) w1)
        as [times w2 | | |] eqn:Hrun; try done.
      apply measure_loop_untouched in Hrun as (t & Htrace & Huntouched);
        [| apply detect_usb_polls_only].
      exists ([Open (event_path event_id) fd] ++ t ++ [Close fd]).
      split.
      * cbn [trace with_trace]. rewrite Htrace. subst w1.
        cbn [trace with_trace]. by rewrite <- !app_assoc.
      * cbn [app descriptors].
        destruct (Z.ltb_spec fd 0) as [Hneg | _]; [lia |].
        rewrite descriptors_app, (descriptors_untouched _ _ Huntouched).
        cbn [descriptors release]. by rewrite Z.eqb_refl.
Qed.

End Handles.

(** A usb measurement of one trial on the device that opens: a failed read,
    the press, a sync event, the release. *)
Lemma event_descriptor_released_once_witness :
  match measure_usb (usb_config 1 100 200) 3
          (example_world []
             [(-1, syn_event); (24, key_event 30 1); (24, syn_event);
              (24, key_event 30 0)]) with
  | Returned _ w' =>
      ∃ t, trace w'
           = trace (example_world []
                      [(-1, syn_event); (24, key_event 30 1); (24, syn_event);
                       (24, key_event 30 0)]) ++ t
           ∧ descriptors [] t = Some []
  | Exited status w' =>
      open_result (example_world []
                     [(-1, syn_event); (24, key_event 30 1); (24, syn_event);
                      (24, key_event 30 0)]) (event_path 3) < 0
      ∧ status = 1
      ∧ trace w'
        = trace (example_world []
                   [(-1, syn_event); (24, key_event 30 1); (24, syn_event);
                    (24, key_event 30 0)])
          ++ [Open (event_path 3)
                (open_result (example_world []
                   [(-1, syn_event); (24, key_event 30 1); (24, syn_event);
                    (24, key_event 30 0)]) (event_path 3));
              Stderr ("Could not open fd for " +:+ show 3 +:+ endl)]
  | Aborted _ => False
  | Blocked _ => True
  end.
Proof.
  apply (proj2 event_descriptor_released_once (usb_config 1 100 200) 3).
  cbn. lia.
Defined.

(** * Further properties *)

(** ** Vocabulary *)

(** An action on the two output streams. *)
Definition is_output (a : action) : Prop :=
  match a with
  | Stdout _ | Stderr _ => True
  | _ => False
  end.

(** What [std::stoi] made of the argument of an option that takes one. *)
Definition optarg_of (o : getopt_result) : option stoi_result :=
  match o with
  | getopt_i optarg | getopt_d optarg | getopt_D optarg
  | getopt_u optarg | getopt_k optarg => Some optarg
  | _ => None
  end.

(** The number of commands a configuration selects: [num_cmds]. *)
Definition commands (config : program_config) : Z :=
  (if pin config then 1 else 0)
  + (if usb config is Some _ then 1 else 0)
  + (if events config then 1 else 0).

(** What the options keep true of the configuration they build. *)
Definition options_invariant (config : program_config) : Prop :=
  0 < iterations config
  ∧ 0 ≤ delay_min config
  ∧ 0 ≤ delay_max config
  ∧ (∀ u, usb config = Some u → 0 ≤ u < 2 ^ 32)
  ∧ (∀ k, key config = Some k → 0 ≤ k < 2 ^ 32).

(** A configuration the measurement can run on. *)
Definition valid_config (config : program_config) : Prop :=
  0 < iterations config
  ∧ 0 ≤ delay_min config ≤ delay_max config
  ∧ commands config = 1
  ∧ (is_Some (usb config) → is_Some (key config))
  ∧ (∀ u, usb config = Some u → 0 ≤ u < 2 ^ 32)
  ∧ (∀ k, key config = Some k → 0 ≤ k < 2 ^ 32).

Lemma with_trace_nil w : with_trace (trace w ++ []) w = w.
Proof. destruct w. unfold with_trace. cbn. by rewrite app_nil_r. Qed.

Lemma defaults_invariant : options_invariant defaults.
Proof. unfold options_invariant. cbn. repeat split; try lia; done. Qed.

(** What [get_num] does, case by case. *)
Lemma get_num_run name optarg w :
  get_num name optarg w =
  match optarg with
  | stoi_value val => Returned val w
  | stoi_invalid_argument =>
      Exited 1
        (with_trace
           (trace w ++ [Stderr (name +:+ " must be a number." +:+ endl);
                        Stderr help_msg]) w)
  | stoi_out_of_range => Aborted w
  end.
Proof.
  destruct optarg; cbn [get_num]; [reflexivity | | reflexivity].
  apply complain_run.
Qed.

(** What [get_positive] does, case by case. *)
Lemma get_positive_run name optarg allow_zero w :
  get_positive name optarg allow_zero w =
  match optarg with
  | stoi_value val =>
      if (val <? 0) || (negb allow_zero && (0 =? val))
      then Exited 1
             (with_trace
                (trace w
                 ++ [Stderr (name +:+ " must be greater than zero." +:+ endl);
                     Stderr help_msg]) w)
      else Returned val w
  | stoi_invalid_argument =>
      Exited 1
        (with_trace
           (trace w ++ [Stderr (name +:+ " must be a number." +:+ endl);
                        Stderr help_msg]) w)
  | stoi_out_of_range => Aborted w
  end.
Proof.
  unfold get_positive, bind at 1. rewrite get_num_run.
  destruct optarg as [val | |]; [| reflexivity..].
  destruct ((val <? 0) || (negb allow_zero && (0 =? val))); [| reflexivity].
  apply complain_run.
Qed.

(** One option: it returns with the world as it was, or exits having
    written to the streams only, or is aborted by [std::out_of_range]. *)
Lemma parse_option_outcome o config w :
  match parse_option o config w with
  | Returned config' w' =>
      w' = w ∧ (options_invariant config → options_invariant config')
  | Exited status w' =>
      (∃ t, w' = with_trace (trace w ++ t) w ∧ Forall is_output t)
      ∧ (status = 1 ∨ status = 0 ∧ o = getopt_h)
  | Aborted w' => w' = w ∧ optarg_of o = Some stoi_out_of_range
  | Blocked _ => False
  end.
Proof.
  assert (Hexit : ∀ message,
    ∃ t, with_trace (trace w ++ [Stderr message; Stderr help_msg]) w
         = with_trace (trace w ++ t) w ∧ Forall is_output t).
  { intros message. eexists. split; [reflexivity |]. by repeat constructor. }
  assert (Hstay : ∀ message,
    (∃ t, with_trace (trace w ++ [Stderr message; Stderr help_msg]) w
          = with_trace (trace w ++ t) w ∧ Forall is_output t)
    ∧ (1 = 1 ∨ 1 = 0 ∧ o = getopt_h)).
  { intros message. split; [apply Hexit | by left]. }
  destruct o as [optarg | optarg | optarg | | optarg | optarg | | | | diagnostic];
    cbn [parse_option]; rewrite ?complain_run; unfold bind;
    rewrite ?get_positive_run, ?get_num_run, ?help_run;
    try destruct optarg as [val | |]; cbn [negb andb orb optarg_of];
    try apply Hstay; try (by split).
  - destruct (Z.ltb_spec val 0); cbn [orb]; [apply Hstay |].
    destruct (Z.eqb_spec 0 val); [apply Hstay |].
    split; [done |]. unfold options_invariant. cbn.
    intros (? & ? & ? & ? & ?). split_and!; try done; lia.
  - rewrite orb_false_r. destruct (Z.ltb_spec val 0); [apply Hstay |].
    split; [done |]. unfold options_invariant. cbn.
    intros (? & ? & ? & ? & ?). split_and!; try done; lia.
  - rewrite orb_false_r. destruct (Z.ltb_spec val 0); [apply Hstay |].
    split; [done |]. unfold options_invariant. cbn.
    intros (? & ? & ? & ? & ?). split_and!; try done; lia.
  - split; [done |]. unfold options_invariant. cbn.
    intros (? & ? & ? & ? & ?). split_and!; try done.
    intros u [= <-]. apply to_unsigned_range.
  - split; [done |]. unfold options_invariant. cbn.
    intros (? & ? & ? & ? & ?). split_and!; try done.
    intros k [= <-]. apply to_unsigned_range.
  - split; [| by right].
    eexists. split; [reflexivity |]. by repeat constructor.
Qed.

(** The options one after the other. *)
Lemma parse_options_outcome argv config w :
  match parse_options argv config w with
  | Returned config' w' =>
      w' = w ∧ (options_invariant config → options_invariant config')
  | Exited status w' =>
      (∃ t, w' = with_trace (trace w ++ t) w ∧ Forall is_output t)
      ∧ (status = 1 ∨ status = 0 ∧ getopt_h ∈ argv)
  | Aborted w' =>
      w' = w ∧ ∃ o, o ∈ argv ∧ optarg_of o = Some stoi_out_of_range
  | Blocked _ => False
  end.
Proof.
  revert config. induction argv as [| o argv IH]; intros config;
    cbn [parse_options]; [by split |].
  unfold bind. pose proof (parse_option_outcome o config w) as Ho.
  destruct (parse_option o config w) as [config1 w1 | status w1 | w1 | w1].
  - destruct Ho as [-> Hinv1]. specialize (IH config1).
    destruct (parse_options argv config1 w) as [config' w' | status w' | w' | w'].
    + destruct IH as [-> Hinv]. split; [done | tauto].
    + destruct IH as [Ht [-> | [-> Hh]]]; (split; [done |]); [by left |].
      right. split; [done |]. by apply list_elem_of_further.
    + destruct IH as [-> (o' & Hin & Hrange)]. split; [done |].
      exists o'. split; [by apply list_elem_of_further | done].
    + done.
  - destruct Ho as [Ht [-> | [-> ->]]]; (split; [done |]); [by left |].
    right. split; [done |]. apply list_elem_of_here.
  - destruct Ho as [-> Hrange]. split; [done |].
    exists o. split; [apply list_elem_of_here | done].
  - done.
Qed.

(** The checks after the options. *)
Lemma validate_outcome config w :
  match validate config w with
  | Returned _ w' =>
      w' = w
      ∧ delay_min config ≤ delay_max config
      ∧ commands config = 1
      ∧ (is_Some (usb config) → is_Some (key config))
  | Exited status w' =>
      status = 1
      ∧ ¬ (delay_min config ≤ delay_max config
           ∧ commands config = 1
           ∧ (is_Some (usb config) → is_Some (key config)))
      ∧ ∃ message,
          w' = with_trace (trace w ++ [Stderr message; Stderr help_msg]) w
  | Aborted _ | Blocked _ => False
  end.
Proof.
  unfold validate, commands.
  destruct (Z.ltb_spec (delay_max config) (delay_min config)) as [Hlt | Hle].
  { unfold bind at 1. rewrite complain_run.
    split; [done |]. split; [lia | by eexists]. }
  destruct (pin config), (usb config) as [u |], (events config),
    (key config) as [k |];
    decide_checks; cbn -[String.append help_msg];
    repeat split; try done; try lia;
    try (by intros (_ & ? & _));
    try (intros (_ & _ & Hkey); by destruct Hkey);
    try (eexists; unfold with_trace;
         cbn [pin_levels fd_reads open_result device_name clock clock_calls trace];
         rewrite <- app_assoc; reflexivity);
    try (by eexists).
Qed.

(** [parse_args], every outcome. *)
Lemma parse_args_outcome argv w :
  match parse_args argv w with
  | Returned config w' => w' = w ∧ valid_config config
  | Exited status w' =>
      (∃ t, w' = with_trace (trace w ++ t) w ∧ Forall is_output t)
      ∧ (status = 1 ∨ status = 0 ∧ getopt_h ∈ argv)
  | Aborted w' =>
      w' = w ∧ ∃ o, o ∈ argv ∧ optarg_of o = Some stoi_out_of_range
  | Blocked _ => False
  end.
Proof.
  unfold parse_args. unfold bind at 1.
  pose proof (parse_options_outcome argv defaults w) as Hoptions.
  destruct (parse_options argv defaults w)
    as [config w1 | status w1 | w1 | w1]; [| done..].
  destruct Hoptions as [-> Hinv]. specialize (Hinv defaults_invariant).
  destruct Hinv as (Hcount & Hmin & Hmax & Husb & Hkey).
  unfold bind. pose proof (validate_outcome config w) as Hchecks.
  destruct (validate config w) as [[] w2 | status w2 | w2 | w2]; [| | done..].
  - destruct Hchecks as (-> & Hle & Hone & Hneeds).
    split; [done |]. unfold valid_config. split_and!; try done; lia.
  - destruct Hchecks as (-> & _ & message & ->). split; [| by left].
    eexists. split; [reflexivity |]. by repeat constructor.
Qed.

(** X1.  A configuration that [parse_args] returns can be measured on: the
    iteration count is positive, the delays satisfy
    [0 <= delay_min <= delay_max], exactly one of pin, usb and events is
    selected, usb comes with a key, and the usb and key values are those of
    an [unsigned int].  Nothing was written while it was parsed. *)
Theorem parse_args_returns_valid_config
    (argv : list getopt_result) (w : world) (config : program_config)
    (w' : world) :
  parse_args argv w = Returned config w' →
  w' = w ∧ valid_config config.
Proof.
  intros Hparse. pose proof (parse_args_outcome argv w) as Houtcome.
  by rewrite Hparse in Houtcome.
Qed.

(** X2.  The checks at the end of [parse_args] accept a configuration
    exactly when [delay_min <= delay_max], one command is selected and usb
    comes with a key; a configuration they accept passes silently, and one
    they reject ends the process with status 1. *)
Theorem validate_accepts_exactly (config : program_config) (w : world) :
  (validate config w = Returned tt w
   ↔ delay_min config ≤ delay_max config
     ∧ commands config = 1
     ∧ (is_Some (usb config) → is_Some (key config)))
  ∧ (validate config w = Returned tt w
     ∨ ∃ w', validate config w = Exited 1 w').
Proof.
  pose proof (validate_outcome config w) as Hchecks.
  destruct (validate config w) as [[] w' | status w' | w' | w']; [| | done..].
  - destruct Hchecks as (-> & Hvalid). split; [| by left].
    split; [done | by intros _].
  - destruct Hchecks as (-> & Hinvalid & _). split; [| right; by eexists].
    split; [done | by intros Hvalid].
Qed.

(** X3.  Whatever the options, [parse_args] touches nothing but the two
    output streams; it ends the process with status 0 only when the help
    option is among the options, and with status 1 otherwise; it is aborted
    only by an argument that [std::stoi] finds out of range; and it never
    waits. *)
Theorem parse_args_streams_and_status (argv : list getopt_result) (w : world) :
  (∃ t, world_of (parse_args argv w) = with_trace (trace w ++ t) w
        ∧ Forall is_output t)
  ∧ match parse_args argv w with
    | Returned _ _ => True
    | Exited status _ => status = 1 ∨ status = 0 ∧ getopt_h ∈ argv
    | Aborted _ => ∃ o, o ∈ argv ∧ optarg_of o = Some stoi_out_of_range
    | Blocked _ => False
    end.
Proof.
  pose proof (parse_args_outcome argv w) as Houtcome.
  destruct (parse_args argv w) as [config w' | status w' | w' | w'];
    cbn [world_of].
  - destruct Houtcome as [-> _]. split; [| done].
    exists []. by rewrite with_trace_nil.
  - done.
  - destruct Houtcome as [-> Hrange]. split; [| done].
    exists []. by rewrite with_trace_nil.
  - done.
Qed.

(** [-i 5 -d 100 -D 200 -p]. *)
Lemma parse_args_returns_valid_config_witness :
  example_world [] [] = example_world [] [] ∧ valid_config (pin_config 5 100 200).
Proof.
  apply (parse_args_returns_valid_config
           [getopt_i (stoi_value 5); getopt_d (stoi_value 100);
            getopt_D (stoi_value 200); getopt_p]
           (example_world [] []) (pin_config 5 100 200) (example_world [] [])).
  reflexivity.
Defined.

(** ** The detection backends, on any input *)

(** A record whose code is a [__u16]. *)
Definition code_in_range (e : input_event) : Prop := 0 ≤ ev_code e < 2 ^ 16.

Lemma detect_pin_returned pressed w w' :
  detect_pin pressed w = Returned tt w' →
  ∃ before level after,
    pin_levels w = before ++ level :: after
    ∧ Forall (λ x, x = bool_to_int pressed) before
    ∧ level ≠ bool_to_int pressed
    ∧ w' = pin_polled (before ++ [level]) after w.
Proof.
  remember (pin_levels w) as levels eqn:Hpin. revert w Hpin.
  induction levels as [| level levels IH]; intros w Hpin;
    rewrite detect_pin_unfold, <- Hpin; [done |].
  destruct (truthy (pin_condition level pressed)) eqn:Hcond.
  - intros [= <-]. exists [], level, levels.
    apply pin_condition_differs in Hcond. by split_and!.
  - intros Hrun. apply IH in Hrun as (before & hit & after & Hrest & Hsame
                                       & Hhit & ->); [| reflexivity].
    cbn [pin_levels pin_polled] in Hrest.
    exists (level :: before), hit, after. split_and!.
    + by rewrite Hrest.
    + constructor; [| done].
      destruct (Z.eq_dec level (bool_to_int pressed)) as [| Hne]; [done |].
      apply pin_condition_differs in Hne. congruence.
    + done.
    + by rewrite pin_polled_twice.
Qed.

(** X4.  The GPIO wait, for any values [digitalRead] may answer: it returns
    exactly when some read differs from [pressed] taken as an [int], at the
    first such read, having consumed the reads up to it and no more. *)
Theorem detect_pin_returns_iff (pressed : bool) (w w' : world) :
  detect_pin pressed w = Returned tt w'
  ↔ ∃ before level after,
      pin_levels w = before ++ level :: after
      ∧ Forall (λ x, x = bool_to_int pressed) before
      ∧ level ≠ bool_to_int pressed
      ∧ w' = pin_polled (before ++ [level]) after w.
Proof.
  split; [apply detect_pin_returned |].
  intros (before & level & after & Hpin & Hsame & Hhit & ->).
  rewrite (detect_pin_skips pressed before (level :: after) w); [| | done].
  - rewrite detect_pin_unfold. cbn [pin_levels pin_polled].
    apply pin_condition_differs in Hhit. rewrite Hhit.
    change (Returned tt (pin_polled [level] after
              (pin_polled before (level :: after) w))
            = Returned tt (pin_polled (before ++ [level]) after w)).
    by rewrite pin_polled_twice.
  - eapply Forall_impl; [exact Hsame |]. cbn. intros x ->.
    destruct (truthy (pin_condition (bool_to_int pressed) pressed)) eqn:Hcond;
      [| done].
    by apply pin_condition_differs in Hcond.
Qed.

Lemma detect_usb_returned config fd pressed w w' :
  detect_usb config fd pressed w = Returned tt w' →
  ∃ before r e after,
    fd_reads w = before ++ (r, e) :: after
    ∧ Forall (λ x, x.1 = -1 ∨ truthy (usb_condition config x.2 pressed) = false)
        before
    ∧ r ≠ -1
    ∧ truthy (usb_condition config e pressed) = true
    ∧ w' = fd_polled fd (before ++ [(r, e)]) after w.
Proof.
  remember (fd_reads w) as reads eqn:Hfd. revert w Hfd.
  induction reads as [| [r e] reads IH]; intros w Hfd;
    rewrite detect_usb_unfold, <- Hfd; [done |].
  destruct (Z.eqb_spec r (-1)) as [Hr | Hr]; cbn [negb andb].
  - intros Hrun. apply IH in Hrun as (before & r' & e' & after & Hrest & Hskip
                                       & Hr' & Hhit & ->); [| reflexivity].
    cbn [fd_reads fd_polled] in Hrest.
    exists ((r, e) :: before), r', e', after. split_and!; try done.
    + by rewrite Hrest.
    + constructor; [by left | done].
    + by rewrite fd_polled_twice.
  - destruct (truthy (usb_condition config e pressed)) eqn:Hcond.
    + intros [= <-]. exists [], r, e, reads. by split_and!.
    + intros Hrun. apply IH in Hrun as (before & r' & e' & after & Hrest
                                         & Hskip & Hr' & Hhit & ->);
        [| reflexivity].
      cbn [fd_reads fd_polled] in Hrest.
      exists ((r, e) :: before), r', e', after. split_and!; try done.
      * by rewrite Hrest.
      * constructor; [by right | done].
      * by rewrite fd_polled_twice.
Qed.

(** X5.  The evdev wait, failed reads included: with the key [k] configured
    it returns exactly when some read succeeded (did not return -1) and left
    a key event for [k] in the awaited state in the buffer, at the first such
    read; every read before it failed or left something else. *)
Theorem detect_usb_returns_iff
    (config : program_config) (k fd : Z) (pressed : bool) (w w' : world) :
  key config = Some k →
  detect_usb config fd pressed w = Returned tt w'
  ↔ ∃ before r e after,
      fd_reads w = before ++ (r, e) :: after
      ∧ Forall (λ x, x.1 = -1 ∨ ¬ key_event_matches k pressed x.2) before
      ∧ r ≠ -1
      ∧ key_event_matches k pressed e
      ∧ w' = fd_polled fd (before ++ [(r, e)]) after w.
Proof.
  intros Hkey. split.
  - intros Hrun. apply detect_usb_returned in Hrun
      as (before & r & e & after & Hfd & Hskip & Hr & Hhit & ->).
    exists before, r, e, after. split_and!; try done.
    + eapply Forall_impl; [exact Hskip |]. cbn. intros [r' e'] [Hfail | Hno];
        [by left | right]. cbn [snd] in *. intros Hmatch.
      apply (usb_condition_matches config k) in Hmatch; [| done]. congruence.
    + by apply (usb_condition_matches config k) in Hhit.
  - intros (before & r & e & after & Hfd & Hskip & Hr & Hhit & ->).
    rewrite (detect_usb_skips config fd pressed before ((r, e) :: after) w);
      [| | done].
    + rewrite detect_usb_unfold. cbn [fd_reads fd_polled].
      apply Z.eqb_neq in Hr. rewrite Hr.
      apply (usb_condition_matches config k) in Hhit; [| done]. rewrite Hhit.
      cbn [negb andb].
      change (Returned tt (fd_polled fd [(r, e)] after
                (fd_polled fd before ((r, e) :: after) w))
              = Returned tt (fd_polled fd (before ++ [(r, e)]) after w)).
      by rewrite fd_polled_twice.
    + eapply Forall_impl; [exact Hskip |]. cbn. intros [r' e'] [Hfail | Hno];
        [by left | right]. cbn [snd] in *.
      destruct (truthy (usb_condition config e' pressed)) eqn:Hcond; [| done].
      by apply (usb_condition_matches config k) in Hcond.
Qed.

(** X6.  A key that no [__u16] code can equal (none configured, or a value
    outside 0..65535, as a negative [--key] becomes when stored unsigned)
    makes the evdev wait endless: whatever records arrive, it reads them all
    and is still polling. *)
Theorem detect_usb_unmatchable_key
    (config : program_config) (fd : Z) (pressed : bool) (w : world) :
  (∀ k, key config = Some k → ¬ (0 ≤ k < 2 ^ 16)) →
  Forall (λ x, code_in_range x.2) (fd_reads w) →
  detect_usb config fd pressed w = Blocked (fd_polled fd (fd_reads w) [] w).
Proof.
  intros Hkey Hcodes.
  rewrite (detect_usb_skips config fd pressed (fd_reads w) [] w).
  - by rewrite detect_usb_unfold.
  - eapply Forall_impl; [exact Hcodes |]. cbn. intros [r e] Hcode. right.
    cbn [snd] in *. unfold truthy, usb_condition, eq_optional.
    destruct (key config) as [k |] eqn:Hk.
    + destruct (Z.eqb_spec (ev_code e) k) as [Heq | Hne].
      * exfalso. apply (Hkey k); [done |]. unfold code_in_range in Hcode. lia.
      * by rewrite andb_false_r.
    + by rewrite andb_false_r.
  - by rewrite app_nil_r.
Qed.

(** A failed read with a press in the buffer, a sync event, then the press
    read successfully. *)
Lemma detect_usb_returns_iff_witness :
  detect_usb (usb_config 1 100 200) 5 true
    (example_world []
       [(-1, key_event 30 1); (24, syn_event); (24, key_event 30 1)])
  = Returned tt
      (fd_polled 5
         [(-1, key_event 30 1); (24, syn_event); (24, key_event 30 1)] []
         (example_world []
            [(-1, key_event 30 1); (24, syn_event); (24, key_event 30 1)])).
Proof.
  apply (detect_usb_returns_iff (usb_config 1 100 200) 30 5 true
           (example_world []
              [(-1, key_event 30 1); (24, syn_event); (24, key_event 30 1)])
           _ eq_refl).
  exists [(-1, key_event 30 1); (24, syn_event)], 24, (key_event 30 1), [].
  split_and!.
  - reflexivity.
  - constructor; [by left |]. constructor; [| constructor].
    right. cbn. intros (Htype & _). discriminate.
  - discriminate.
  - done.
  - reflexivity.
Defined.

(** [--key -1] is stored as 4294967295: presses and releases of every key
    go by. *)
Lemma detect_usb_unmatchable_key_witness :
  detect_usb (set_key (Some (to_unsigned (-1))) (usb_config 1 100 200)) 5 true
    (example_world [] [(24, key_event 30 1); (24, key_event 65535 1)])
  = Blocked
      (fd_polled 5 [(24, key_event 30 1); (24, key_event 65535 1)] []
         (example_world [] [(24, key_event 30 1); (24, key_event 65535 1)])).
Proof.
  apply (detect_usb_unmatchable_key
           (set_key (Some (to_unsigned (-1))) (usb_config 1 100 200)) 5 true
           (example_world [] [(24, key_event 30 1); (24, key_event 65535 1)])).
  - intros k [= <-]. vm_compute. intros [_ Hlt]. discriminate.
  - repeat constructor; vm_compute; discriminate.
Defined.

(** ** The measurement loop, seen from the pins and the clock *)

(** The durations slept for in a trace, in order. *)
Fixpoint sleeps (t : list action) : list Z :=
  match t with
  | [] => []
  | SleepFor delay :: t' => delay :: sleeps t'
  | _ :: t' => sleeps t'
  end.

(** The clock readings of a trace, in order. *)
Fixpoint clock_reads (t : list action) : list Z :=
  match t with
  | [] => []
  | ClockNow ticks :: t' => ticks :: clock_reads t'
  | _ :: t' => clock_reads t'
  end.

(** The level of the output pin after a trace, [level] being its level
    before. *)
Fixpoint output_after (level : Z) (t : list action) : Z :=
  match t with
  | [] => level
  | DigitalWrite p v :: t' =>
      output_after (if p =? g_pin_output then v else level) t'
  | _ :: t' => output_after level t'
  end.

(** Whether every sleep of a trace finds the output pin LOW. *)
Fixpoint sleeps_deasserted (level : Z) (t : list action) : bool :=
  match t with
  | [] => true
  | SleepFor _ :: t' => (level =? LOW) && sleeps_deasserted level t'
  | DigitalWrite p v :: t' =>
      sleeps_deasserted (if p =? g_pin_output then v else level) t'
  | _ :: t' => sleeps_deasserted level t'
  end.

Lemma sleeps_app t1 t2 : sleeps (t1 ++ t2) = sleeps t1 ++ sleeps t2.
Proof.
  induction t1 as [| a t1 IH]; [reflexivity |].
  destruct a; cbn [app sleeps]; by rewrite ?IH.
Qed.

Lemma clock_reads_app t1 t2 :
  clock_reads (t1 ++ t2) = clock_reads t1 ++ clock_reads t2.
Proof.
  induction t1 as [| a t1 IH]; [reflexivity |].
  destruct a; cbn [app clock_reads]; by rewrite ?IH.
Qed.

Lemma output_after_app level t1 t2 :
  output_after level (t1 ++ t2) = output_after (output_after level t1) t2.
Proof.
  revert level. induction t1 as [| a t1 IH]; intros level; [reflexivity |].
  destruct a; cbn [app output_after]; apply IH.
Qed.

Lemma sleeps_deasserted_app level t1 t2 :
  sleeps_deasserted level (t1 ++ t2)
  = sleeps_deasserted level t1 && sleeps_deasserted (output_after level t1) t2.
Proof.
  revert level. induction t1 as [| a t1 IH]; intros level; [reflexivity |].
  destruct a; cbn [app sleeps_deasserted output_after]; rewrite ?IH; try done.
  by rewrite andb_assoc.
Qed.

(** Reads of the inputs are no sleeps, no clock readings and no writes. *)
Lemma polls_silent t level :
  Forall is_poll t →
  sleeps t = [] ∧ clock_reads t = [] ∧ output_after level t = level
  ∧ sleeps_deasserted level t = true.
Proof.
  induction 1 as [| a t Ha _ IH]; [done |].
  destruct a; try done.
Qed.

Section Pins.
Context `{StdLib}.

Lemma trials_trace_seen clk delays samples i n c t :
  trials_trace clk delays samples i n c t →
  sleeps t = take n (drop i delays)
  ∧ clock_reads t = map clk (seq c (2 * n))
  ∧ output_after LOW t = LOW
  ∧ sleeps_deasserted LOW t = true.
Proof.
  induction 1 as [| i n c delay pa pd t Hdelay Hpa Hpd _ _ IH]; [done |].
  destruct IH as (Hsleeps & Hclock & Hout & Hlow).
  assert (Hquiet : ∀ polls level, Forall is_poll polls →
    output_after level polls = level
    ∧ sleeps_deasserted level polls = true).
  { intros polls level Hpolls.
    by destruct (polls_silent polls level Hpolls) as (_ & _ & ? & ?). }
  destruct (polls_silent pa LOW Hpa) as (Hs1 & Hc1 & _).
  destruct (polls_silent pd LOW Hpd) as (Hs2 & Hc2 & _).
  unfold trial_trace. split_and!.
  - rewrite !sleeps_app, Hs1, Hs2, Hsleeps. cbn [sleeps app].
    by rewrite (drop_S _ _ _ Hdelay).
  - rewrite !clock_reads_app, Hc1, Hc2, Hclock. cbn [clock_reads app].
    replace (2 * S n)%nat with (S (S (2 * n))) by lia. reflexivity.
  - rewrite !output_after_app. cbn [output_after].
    rewrite Z.eqb_refl. cbv iota.
    by rewrite (proj1 (Hquiet pd LOW Hpd)).
  - rewrite !sleeps_deasserted_app, !output_after_app.
    cbn [sleeps_deasserted output_after].
    rewrite !Z.eqb_refl. cbv iota.
    rewrite (proj2 (Hquiet pa HIGH Hpa)), (proj2 (Hquiet pd LOW Hpd)),
      (proj1 (Hquiet pd LOW Hpd)), Hlow.
    reflexivity.
Qed.

(** X7.  A run of the measurement loop that returns has slept exactly for
    the generated delays, one per trial and in their order, and has read
    the clock exactly twice per trial and at no other time. *)
Theorem measure_loop_sleeps_and_clock
    (config : program_config) (detect : bool → M unit)
    (w : world) (times : list Z) (w' : world) :
  polls_only detect →
  measure_loop config detect w = Returned times w' →
  ∃ delays t,
    get_delays config w = Returned delays w
    ∧ Z.of_nat (length delays) = iterations config
    ∧ trace w' = trace w ++ t
    ∧ sleeps t = delays
    ∧ clock_reads t
      = map (clock w)
          (seq (clock_calls w) (2 * Z.to_nat (iterations config))).
Proof.
  intros Hpolls Hrun.
  destruct (measure_loop_returned config detect w times w' Hpolls Hrun)
    as (delays & t & Hdelays & Hcount & Hlength & _ & Htrace & Htrials & _).
  apply trials_trace_seen in Htrials as (Hsleeps & Hclock & _ & _).
  exists delays, (summary_trace config ++ init_trace ++ t).
  split_and!; [done | lia | done | |].
  - rewrite !sleeps_app, Hsleeps, <- Hlength, drop_0, firstn_all.
    unfold summary_trace. by destruct (summary config).
  - rewrite !clock_reads_app, Hclock.
    unfold summary_trace. by destruct (summary config).
Qed.

(** X8.  In a run of the measurement loop that returns, the output pin is
    LOW during every sleep, whatever its level was before the run, and the
    run leaves it LOW. *)
Theorem measure_loop_output_low_when_idle
    (config : program_config) (detect : bool → M unit)
    (w : world) (times : list Z) (w' : world) :
  polls_only detect →
  measure_loop config detect w = Returned times w' →
  ∃ t,
    trace w' = trace w ++ t
    ∧ ∀ level,
        sleeps_deasserted level t = true ∧ output_after level t = LOW.
Proof.
  intros Hpolls Hrun.
  destruct (measure_loop_returned config detect w times w' Hpolls Hrun)
    as (delays & t & _ & _ & _ & _ & Htrace & Htrials & _).
  apply trials_trace_seen in Htrials as (_ & _ & Hout & Hlow).
  exists (summary_trace config ++ init_trace ++ t). split; [done |].
  intros level.
  rewrite !sleeps_deasserted_app, !output_after_app.
  assert (Hsummary : sleeps_deasserted level (summary_trace config) = true
                     ∧ output_after level (summary_trace config) = level).
  { unfold summary_trace. by destruct (summary config). }
  destruct Hsummary as [-> ->].
  change (output_after level init_trace) with LOW.
  by rewrite Hout, Hlow.
Qed.

End Pins.

(** The pin measurement of two trials: sleeps of 131 and 105, four clock
    readings. *)
Lemma measure_loop_sleeps_and_clock_witness :
  ∃ delays t,
    get_delays (pin_config 2 100 200)
      (example_world [HIGH; LOW; LOW; HIGH; LOW; HIGH] [])
    = Returned delays (example_world [HIGH; LOW; LOW; HIGH; LOW; HIGH] [])
    ∧ Z.of_nat (length delays) = 2
    ∧ trace example_world_measured = [] ++ t
    ∧ sleeps t = delays
    ∧ clock_reads t = map (λ n, 1000 * Z.of_nat n) (seq 0 4).
Proof.
  apply (measure_loop_sleeps_and_clock (pin_config 2 100 200) detect_pin
           (example_world [HIGH; LOW; LOW; HIGH; LOW; HIGH] [])
           [1000; 1000] example_world_measured detect_pin_polls_only).
  vm_compute. reflexivity.
Defined.

(** The same measurement leaves the output LOW. *)
Lemma measure_loop_output_low_when_idle_witness :
  ∃ t,
    trace example_world_measured = [] ++ t
    ∧ ∀ level,
        sleeps_deasserted level t = true ∧ output_after level t = LOW.
Proof.
  apply (measure_loop_output_low_when_idle (pin_config 2 100 200) detect_pin
           (example_world [HIGH; LOW; LOW; HIGH; LOW; HIGH] [])
           [1000; 1000] example_world_measured detect_pin_polls_only).
  vm_compute. reflexivity.
Defined.

(** ** The enumeration and [main] *)

(** What a trace wrote to the standard output, in order. *)
Fixpoint stdout_of (t : list action) : list string :=
  match t with
  | [] => []
  | Stdout text :: t' => text :: stdout_of t'
  | _ :: t' => stdout_of t'
  end.

(** The line the enumeration writes for a device that opens. *)
Definition event_line (w : world) (event_id : Z) : string :=
  "[" +:+ show event_id +:+ "] "
  +:+ device_name w (open_result w (event_path event_id)) +:+ endl.

Lemma stdout_of_app t1 t2 : stdout_of (t1 ++ t2) = stdout_of t1 ++ stdout_of t2.
Proof.
  induction t1 as [| a t1 IH]; [reflexivity |].
  destruct a; cbn [app stdout_of]; by rewrite ?IH.
Qed.

Lemma stdout_of_enumeration w ids :
  stdout_of (flat_map (enumerate_trace w) ids)
  = map (event_line w)
      (filter (λ event_id, 0 ≤ open_result w (event_path event_id)) ids).
Proof.
  induction ids as [| event_id ids IH]; [reflexivity |].
  cbn [flat_map]. rewrite stdout_of_app, IH, filter_cons.
  unfold enumerate_trace. cbv zeta.
  destruct (Z.ltb_spec (open_result w (event_path event_id)) 0) as [Hneg | Hpos].
  - rewrite decide_False by lia. reflexivity.
  - rewrite decide_True by lia. reflexivity.
Qed.

Section MainProgram.
Context `{StdLib}.

(** X9.  The enumeration always returns; it writes one line for each of
    the device indices 0..255 whose [open] succeeds, in increasing order of
    the index and with the name the device reports, and no line for the
    others; apart from the trace it leaves the world as it was. *)
Theorem print_event_paths_lists_devices_that_open (w : world) :
  ∃ t,
    print_event_paths w = Returned tt (with_trace (trace w ++ t) w)
    ∧ stdout_of t
      = map (event_line w)
          (filter (λ event_id, 0 ≤ open_result w (event_path event_id))
             (seqZ 0 256)).
Proof.
  exists (flat_map (enumerate_trace w) (seqZ 0 256)). split.
  - apply (print_event_paths_from_run 256 0 w).
  - apply stdout_of_enumeration.
Qed.

(** [measure] adds one write to what the measurement did. *)
Lemma measure_run (measure_fn : M (list Z)) w :
  measure measure_fn w =
  match measure_fn w with
  | Returned times w' =>
      Returned tt
        (with_trace
           (trace w'
            ++ [Stdout (foldl (λ acc t, acc +:+ show t +:+ endl) EmptyString
                          times)]) w')
  | Exited status w' => Exited status w'
  | Aborted w' => Aborted w'
  | Blocked w' => Blocked w'
  end.
Proof. unfold measure, bind. by destruct (measure_fn w). Qed.

(** A usb measurement never aborts and exits with status 1 only. *)
Lemma measure_usb_outcome config event_id w :
  0 ≤ iterations config →
  match measure_usb config event_id w with
  | Returned _ _ | Blocked _ => True
  | Exited status w' =>
      status = 1
      ∧ open_result w (event_path event_id) < 0
      ∧ w' = with_trace
               (trace w
                ++ [Open (event_path event_id)
                      (open_result w (event_path event_id));
                    Stderr ("Could not open fd for " +:+ show event_id +:+ endl)])
               w
  | Aborted _ => False
  end.
Proof.
  intros Hcount. unfold measure_usb. rewrite try_Event_run. cbv zeta.
  destruct (Z.ltb_spec (open_result w (event_path event_id)) 0)
    as [Hneg | Hpos].
  - unfold bind, cerr, emit, exit. cbn [trace with_trace].
    split_and!; [done | done |].
    unfold with_trace. cbn. by rewrite <- app_assoc.
  - cbn [_fd].
    match goal with
    | |- context [measure_loop config ?detect ?w1] =>
        pose proof (measure_loop_never_fails config detect w1
                      (detect_usb_never_fails config _) Hcount) as Hfail;
        by destruct (measure_loop config detect w1)
    end.
Qed.

(** [main] after its options were accepted. *)
Lemma main_dispatch argv config w :
  parse_args argv w = Returned config w →
  main argv w =
  match
    (if events config then print_event_paths
     else if pin config then measure (measure_pin config)
     else if usb config is Some event_id
          then measure (measure_usb config (to_int event_id))
          else ret tt) w
  with
  | Returned _ w' => Returned 0 w'
  | Exited status w' => Exited status w'
  | Aborted w' => Aborted w'
  | Blocked w' => Blocked w'
  end.
Proof.
  intros Hparse. unfold main. unfold bind at 1. rewrite Hparse.
  unfold bind. by destruct (_ w).
Qed.

(** X10.  The status of the process: [main] returns 0 and nothing else; it
    exits with 1, or with 0 when the help option is among the options; it
    is aborted only by an argument that [std::stoi] finds out of range. *)
Theorem main_exit_status (argv : list getopt_result) (w : world) :
  match main argv w with
  | Returned status _ => status = 0
  | Exited status _ => status = 1 ∨ status = 0 ∧ getopt_h ∈ argv
  | Aborted _ => ∃ o, o ∈ argv ∧ optarg_of o = Some stoi_out_of_range
  | Blocked _ => True
  end.
Proof.
  pose proof (parse_args_outcome argv w) as Hparse.
  destruct (parse_args argv w) as [config w1 | status w1 | w1 | w1] eqn:Hargs.
  - destruct Hparse as [-> (Hcount & _)].
    rewrite (main_dispatch argv config w Hargs).
    destruct (events config).
    { unfold print_event_paths. rewrite print_event_paths_from_run.
      done. }
    destruct (pin config).
    { rewrite measure_run. unfold measure_pin.
      pose proof (measure_loop_never_fails config detect_pin w
                    detect_pin_never_fails ltac:(lia)) as Hfail.
      by destruct (measure_loop config detect_pin w). }
    destruct (usb config) as [event_id |]; [| done].
    rewrite measure_run.
    pose proof (measure_usb_outcome config (to_int event_id) w ltac:(lia))
      as Husb.
    destruct (measure_usb config (to_int event_id) w); try done.
    left. by destruct Husb.
  - unfold main, bind. rewrite Hargs. by destruct Hparse.
  - unfold main, bind. rewrite Hargs. by destruct Hparse.
  - done.
Qed.

(** X11.  A usb measurement on a device that does not open: the event id
    given on the command line (stored unsigned, taken back as an [int]) names
    the device that is tried and the one the message reports; the process
    exits with 1 having touched no pin, read no clock and written nothing to
    the standard output. *)
Theorem main_usb_device_does_not_open
    (argv : list getopt_result) (config : program_config) (event_id : Z)
    (w : world) :
  parse_args argv w = Returned config w →
  usb config = Some (to_unsigned event_id) →
  is_int event_id →
  open_result w (event_path event_id) < 0 →
  main argv w
  = Exited 1
      (with_trace
         (trace w
          ++ [Open (event_path event_id) (open_result w (event_path event_id));
              Stderr ("Could not open fd for " +:+ show event_id +:+ endl)])
         w).
Proof.
  intros Hargs Husb Hint Hopen.
  pose proof (parse_args_outcome argv w) as Hparse. rewrite Hargs in Hparse.
  destruct Hparse as (_ & Hcount & _ & Hone & _).
  rewrite (main_dispatch argv config w Hargs).
  unfold commands in Hone. rewrite Husb in *.
  destruct (events config); [destruct (pin config); lia |].
  destruct (pin config); [lia |].
  rewrite to_int_to_unsigned by done. rewrite measure_run.
  pose proof (measure_usb_outcome config event_id w ltac:(lia)) as Hrun.
  unfold measure_usb in *. rewrite try_Event_run in *. cbv zeta in *.
  apply Z.ltb_lt in Hopen. rewrite Hopen in *.
  unfold bind, cerr, emit, exit in *. cbn [trace with_trace] in *.
  by destruct Hrun as (_ & _ & ->).
Qed.

End MainProgram.

(** [-u -7 -k 30] in a world where only the device 3 opens. *)
Lemma main_usb_device_does_not_open_witness :
  main [getopt_u (stoi_value (-7)); getopt_k (stoi_value 30)]
    (example_world [] [])
  = Exited 1
      (with_trace
         (trace (example_world [] [])
          ++ [Open (event_path (-7))
                (open_result (example_world [] []) (event_path (-7)));
              Stderr ("Could not open fd for " +:+ show (-7) +:+ endl)])
         (example_world [] [])).
Proof.
  apply (main_usb_device_does_not_open
           [getopt_u (stoi_value (-7)); getopt_k (stoi_value 30)]
           (set_key (Some 30) (set_usb (Some (to_unsigned (-7))) defaults))
           (-7) (example_world [] [])).
  - reflexivity.
  - reflexivity.
  - vm_compute. split; [discriminate | reflexivity].
  - vm_compute. reflexivity.
Defined.

(** ** The text of the samples *)

(** The text [measure] writes for the samples: [tss.str()]. *)
Definition samples_text (times : list Z) : string :=
  foldl (λ acc t, acc +:+ show t +:+ endl) EmptyString times.

(** The newline character. *)
Definition newline : Ascii.ascii := Ascii.ascii_of_nat 10.

(** Whether a string holds no newline. *)
Fixpoint newline_free (s : string) : bool :=
  match s with
  | EmptyString => true
  | String c s' => negb (Ascii.eqb c newline) && newline_free s'
  end.

(** The lines of a text, each without the newline that ends it; [line] is
    the part of the current line already read.  What follows the last
    newline is no line. *)
Fixpoint lines_from (line text : string) : list string :=
  match text with
  | EmptyString => []
  | String c text' =>
      if Ascii.eqb c newline then line :: lines_from EmptyString text'
      else lines_from (line +:+ String c EmptyString) text'
  end.

Definition lines (text : string) : list string := lines_from EmptyString text.

Lemma append_cons c s t : String c s +:+ t = String c (s +:+ t).
Proof. reflexivity. Qed.

Lemma append_empty_r s : s +:+ EmptyString = s.
Proof. induction s as [| c s IH]; [reflexivity |]. by rewrite append_cons, IH. Qed.

Lemma append_associative s t u : (s +:+ t) +:+ u = s +:+ t +:+ u.
Proof.
  induction s as [| c s IH]; [reflexivity |]. by rewrite !append_cons, IH.
Qed.

Lemma newline_free_append s t :
  newline_free (s +:+ t) = newline_free s && newline_free t.
Proof.
  induction s as [| c s IH]; [reflexivity |].
  rewrite append_cons. cbn [newline_free]. by rewrite IH, andb_assoc.
Qed.

Lemma pretty_N_char_no_newline x :
  Ascii.eqb (pretty_N_char x) newline = false.
Proof. unfold pretty_N_char. by repeat case_match. Qed.

Lemma pretty_N_go_newline_free x s :
  newline_free s = true → newline_free (pretty_N_go x s) = true.
Proof.
  revert s. induction (N.lt_wf_0 x) as [x _ IH]; intros s Hs.
  assert (x = 0 ∨ 0 < x)%N as [-> | Hpos] by lia.
  - by rewrite pretty_N_go_0.
  - rewrite pretty_N_go_step by done. apply IH; [by apply N.div_lt |].
    cbn [newline_free]. by rewrite pretty_N_char_no_newline, Hs.
Qed.

(** A number is written without a newline. *)
Lemma show_newline_free v : newline_free (show v) = true.
Proof.
  assert (Hpos : ∀ p : positive, newline_free (pretty p) = true).
  { intros p. unfold pretty, pretty_positive, pretty, pretty_N.
    case_decide; [done |]. by apply pretty_N_go_newline_free. }
  unfold show, pretty, pretty_Z. destruct v as [| p | p]; [done | apply Hpos |].
  rewrite newline_free_append. by rewrite Hpos.
Qed.

Lemma lines_from_line line s text :
  newline_free s = true →
  lines_from line (s +:+ endl +:+ text)
  = (line +:+ s) :: lines_from EmptyString text.
Proof.
  revert line. induction s as [| c s IH]; intros line Hs.
  - by rewrite append_empty_r.
  - cbn [newline_free] in Hs. apply andb_true_iff in Hs as [Hc Hs].
    rewrite append_cons. cbn [lines_from].
    apply negb_true_iff in Hc. rewrite Hc, IH by done.
    by rewrite append_associative.
Qed.

Lemma samples_text_from acc times :
  foldl (λ acc t, acc +:+ show t +:+ endl) acc times
  = acc +:+ samples_text times.
Proof.
  unfold samples_text. revert acc.
  induction times as [| t times IH]; intros acc; cbn [foldl].
  - by rewrite append_empty_r.
  - rewrite IH, (IH (EmptyString +:+ _)). by rewrite !append_associative.
Qed.

Lemma samples_text_cons t times :
  samples_text (t :: times) = show t +:+ endl +:+ samples_text times.
Proof.
  unfold samples_text at 1. cbn [foldl]. rewrite samples_text_from.
  change (EmptyString +:+ show t +:+ endl) with (show t +:+ endl).
  by rewrite append_associative.
Qed.

(** The text written for the samples has one line per sample, in the order
    of the samples, each line the decimal form of its sample; so the text
    tells the samples. *)
Lemma samples_text_lines (times : list Z) :
  lines (samples_text times) = map show times
  ∧ ∀ times', samples_text times = samples_text times' → times = times'.
Proof.
  assert (Hlines : ∀ ts, lines (samples_text ts) = map show ts).
  { intros ts. unfold lines. induction ts as [| t ts IH]; [reflexivity |].
    rewrite samples_text_cons, lines_from_line by apply show_newline_free.
    cbn [map]. by rewrite IH. }
  split; [apply Hlines |].
  intros times' Htext.
  assert (Hmap : show <$> times = show <$> times').
  { change (map show times = map show times').
    by rewrite <- !Hlines, Htext. }
  by apply (inj (fmap show)) in Hmap.
Qed.

(** X12.  When the measurement returns, [measure] writes its samples in one
    piece, after everything the measurement did: a text with one line per
    sample, in order, each the decimal form of its sample, from which the
    samples can be told. *)
Theorem measure_writes_one_line_per_sample
    (measure_fn : M (list Z)) (w : world) (times : list Z) (w1 : world) :
  measure_fn w = Returned times w1 →
  ∃ text,
    measure measure_fn w
    = Returned tt (with_trace (trace w1 ++ [Stdout text]) w1)
    ∧ lines text = map show times
    ∧ ∀ times', lines text = map show times' → times' = times.
Proof.
  intros Hrun. exists (samples_text times). split_and!.
  - by rewrite measure_run, Hrun.
  - apply samples_text_lines.
  - intros times' Hlines.
    rewrite (proj1 (samples_text_lines times)) in Hlines.
    change (show <$> times = show <$> times') in Hlines.
    by apply (inj (fmap show)) in Hlines.
Qed.

Lemma stdout_of_polls t : Forall is_poll t → stdout_of t = [].
Proof.
  induction 1 as [| a t Ha _ IH]; [reflexivity |]. by destruct a.
Qed.

Section Completion.
Context `{StdLib}.

Lemma trials_trace_no_stdout clk delays samples i n c t :
  trials_trace clk delays samples i n c t → stdout_of t = [].
Proof.
  induction 1 as [| i n c delay pa pd t _ Hpa Hpd _ _ IH]; [reflexivity |].
  unfold trial_trace. rewrite !stdout_of_app, IH.
  by rewrite (stdout_of_polls pa Hpa), (stdout_of_polls pd Hpd).
Qed.

(** X13.  A pin measurement whose input pin follows the output (LOW once
    the output went HIGH, HIGH once it went LOW, for every trial) runs to
    its end: [main] returns 0, having written the summary if asked for and
    then the samples, as many as there are iterations. *)
Theorem main_pin_measurement_completes
    (argv : list getopt_result) (config : program_config) (w : world)
    (delays rest : list Z) :
  parse_args argv w = Returned config w →
  pin config = true →
  get_delays config w = Returned delays w →
  pin_levels w
  = concat (replicate (Z.to_nat (iterations config)) [LOW; HIGH]) ++ rest →
  ∃ times t w',
    main argv w = Returned 0 w'
    ∧ trace w' = trace w ++ t
    ∧ Z.of_nat (length times) = iterations config
    ∧ stdout_of t = stdout_of (summary_trace config) ++ [samples_text times].
Proof.
  intros Hargs Hpin Hdelays Hlevels.
  pose proof (parse_args_outcome argv w) as Hparse. rewrite Hargs in Hparse.
  destruct Hparse as (_ & Hcount & _ & Hone & _).
  unfold commands in Hone. rewrite Hpin in Hone.
  assert (Hevents : events config = false).
  { destruct (events config); [| done]. destruct (usb config); lia. }
  destruct (measure_pin_returns config w delays rest Hdelays Hlevels)
    as (times & w1 & Hrun).
  destruct (measure_loop_returned config detect_pin w times w1
              detect_pin_polls_only Hrun)
    as (delays' & t & _ & _ & _ & Hlength & Htrace & Htrials & _).
  exists times, (summary_trace config ++ init_trace ++ t
                 ++ [Stdout (samples_text times)]),
    (with_trace (trace w1 ++ [Stdout (samples_text times)]) w1).
  split_and!.
  - rewrite (main_dispatch argv config w Hargs), Hevents, Hpin.
    by rewrite measure_run, Hrun.
  - cbn [trace with_trace]. rewrite Htrace. by rewrite <- !app_assoc.
  - lia.
  - rewrite !stdout_of_app, (trials_trace_no_stdout _ _ _ _ _ _ _ Htrials).
    reflexivity.
Qed.

End Completion.

(** The samples 1000 and -5 are written on two lines. *)
Lemma measure_writes_one_line_per_sample_witness :
  ∃ text,
    measure (ret [1000; -5]) (example_world [] [])
    = Returned tt
        (with_trace (trace (example_world [] []) ++ [Stdout text])
           (example_world [] []))
    ∧ lines text = map show [1000; -5]
    ∧ ∀ times', lines text = map show times' → times' = [1000; -5].
Proof.
  apply (measure_writes_one_line_per_sample (ret [1000; -5])
           (example_world [] []) [1000; -5] (example_world [] [])).
  reflexivity.
Defined.

(** [-i 2 -d 100 -D 200 -p -s] with the pin following the output. *)
Lemma main_pin_measurement_completes_witness :
  ∃ times t w',
    main [getopt_i (stoi_value 2); getopt_d (stoi_value 100);
          getopt_D (stoi_value 200); getopt_p; getopt_s]
      (example_world [LOW; HIGH; LOW; HIGH] [])
    = Returned 0 w'
    ∧ trace w' = trace (example_world [LOW; HIGH; LOW; HIGH] []) ++ t
    ∧ Z.of_nat (length times) = 2
    ∧ stdout_of t
      = stdout_of (summary_trace (set_summary true (pin_config 2 100 200)))
        ++ [samples_text times].
Proof.
  apply (main_pin_measurement_completes
           [getopt_i (stoi_value 2); getopt_d (stoi_value 100);
            getopt_D (stoi_value 200); getopt_p; getopt_s]
           (set_summary true (pin_config 2 100 200))
           (example_world [LOW; HIGH; LOW; HIGH] [])
           [131; 105] []).
  - reflexivity.
  - reflexivity.
  - vm_compute. reflexivity.
  - reflexivity.
Defined.

(** ** A usb measurement from the command line to its end *)

(** A press of the key [k] followed by its release, each read with the
    return value [r]. *)
Definition press_release (r k : Z) : list (Z * input_event) :=
  [(r, key_event k 1); (r, key_event k 0)].

(** A successful read of the awaited event ends the wait. *)
Lemma detect_usb_hit config k fd pressed r rest w :
  key config = Some k →
  r ≠ -1 →
  fd_reads w = (r, key_event k (bool_to_int pressed)) :: rest →
  detect_usb config fd pressed w
  = Returned tt (fd_polled fd [(r, key_event k (bool_to_int pressed))] rest w).
Proof.
  intros Hkey Hr Hfd. rewrite detect_usb_unfold, Hfd.
  apply Z.eqb_neq in Hr. rewrite Hr.
  assert (Hhit : truthy (usb_condition config
                           (key_event k (bool_to_int pressed)) pressed) = true).
  { apply (usb_condition_matches config k); [done |]. by destruct pressed. }
  by rewrite Hhit.
Qed.

Section UsbCompletion.
Context `{StdLib}.

Lemma measure_trials_usb_returns config k fd r delays n :
  key config = Some k →
  r ≠ -1 →
  ∀ i times w rest,
    (i + n ≤ length delays)%nat →
    fd_reads w = concat (replicate n (press_release r k)) ++ rest →
    ∃ times' w',
      measure_trials (detect_usb config fd) delays n i times w
      = Returned times' w'
      ∧ fd_reads w' = rest.
Proof.
  intros Hkey Hr. induction n as [| n IH]; intros i times w rest Hlen Hfd.
  - exists times, w. by split.
  - cbn [measure_trials].
    destruct (lookup_lt_is_Some_2 delays i) as [delay ->]; [lia |].
    cbn [replicate concat app press_release] in Hfd.
    unfold bind at 1, sleep_for, emit. unfold bind at 1, now.
    unfold bind at 1, digitalWrite, emit. unfold bind at 1.
    rewrite (detect_usb_hit config k fd true r
               ((r, key_event k 0) :: concat (replicate n (press_release r k))
                ++ rest)); [| done | done | exact Hfd].
    unfold bind at 1, now. unfold bind at 1, digitalWrite, emit.
    unfold bind at 1.
    rewrite (detect_usb_hit config k fd false r
               (concat (replicate n (press_release r k)) ++ rest));
      [| done | done | reflexivity].
    apply IH; [lia | reflexivity].
Qed.

Lemma measure_loop_usb_returns config k fd r w delays rest :
  key config = Some k →
  r ≠ -1 →
  get_delays config w = Returned delays w →
  fd_reads w
  = concat (replicate (Z.to_nat (iterations config)) (press_release r k))
    ++ rest →
  ∃ times w', measure_loop config (detect_usb config fd) w = Returned times w'.
Proof.
  intros Hkey Hr Hdelays Hfd.
  apply get_delays_returned in Hdelays as (_ & Hcount & Hgen).
  unfold measure_loop. unfold bind at 1.
  rewrite summary_run. unfold bind at 1. rewrite init_pins_run.
  unfold bind at 1. rewrite get_delays_run, Hgen.
  destruct (Z.ltb_spec (iterations config) 0) as [Hneg | _]; [lia |].
  unfold bind at 1, vector_new.
  destruct (Z.ltb_spec (iterations config) 0) as [Hneg | _]; [lia |].
  unfold ret at 1.
  apply generate_length in Hgen.
  match goal with
  | |- ∃ times w', measure_trials _ _ _ _ ?times0 ?w2 = _ =>
      destruct (measure_trials_usb_returns config k fd r delays
                  (Z.to_nat (iterations config)) Hkey Hr 0 times0 w2 rest)
        as (times & w' & Hrun & _); [lia | exact Hfd |]
  end.
  by exists times, w'.
Qed.

(** X14.  A usb measurement on a device that opens and reports, for every
    trial, the press and then the release of the configured key, runs to its
    end: [main] returns 0, having opened the device named on the command
    line, closed its descriptor exactly once, and written the summary if
    asked for and then the samples, as many as there are iterations. *)
Theorem main_usb_measurement_completes
    (argv : list getopt_result) (config : program_config)
    (event_id k r : Z) (w : world)
    (delays : list Z) (rest : list (Z * input_event)) :
  parse_args argv w = Returned config w →
  usb config = Some (to_unsigned event_id) →
  is_int event_id →
  key config = Some k →
  0 ≤ open_result w (event_path event_id) →
  r ≠ -1 →
  get_delays config w = Returned delays w →
  fd_reads w
  = concat (replicate (Z.to_nat (iterations config)) (press_release r k))
    ++ rest →
  ∃ times t w',
    main argv w = Returned 0 w'
    ∧ trace w' = trace w ++ t
    ∧ head t = Some (Open (event_path event_id)
                       (open_result w (event_path event_id)))
    ∧ descriptors [] t = Some []
    ∧ Z.of_nat (length times) = iterations config
    ∧ stdout_of t = stdout_of (summary_trace config) ++ [samples_text times].
Proof.
  intros Hargs Husb Hint Hkey Hopen Hr Hdelays Hfd.
  pose proof (parse_args_outcome argv w) as Hparse. rewrite Hargs in Hparse.
  destruct Hparse as (_ & Hcount & _ & Hone & _).
  unfold commands in Hone. rewrite Husb in Hone.
  assert (Hpin : pin config = false) by (destruct (pin config), (events config); lia).
  assert (Hevents : events config = false)
    by (destruct (pin config), (events config); lia).
  set (fd := open_result w (event_path event_id)) in *.
  set (w1 := with_trace (trace w ++ [Open (event_path event_id) fd]) w).
  destruct (measure_loop_usb_returns config k fd r w1 delays rest Hkey Hr)
    as (times & w2 & Hrun).
  { apply get_delays_returned in Hdelays as (_ & _ & Hgen).
    rewrite get_delays_run, Hgen.
    destruct (Z.ltb_spec (iterations config) 0) as [Hneg | _]; [lia | done]. }
  { exact Hfd. }
  destruct (measure_loop_returned config (detect_usb config fd) w1 times w2
              (detect_usb_polls_only config fd) Hrun)
    as (delays' & t & _ & _ & _ & Hlength & Htrace & Htrials & _).
  assert (Husb_run : measure_usb config event_id w
                     = Returned times (with_trace (trace w2 ++ [Close fd]) w2)).
  { unfold measure_usb. rewrite try_Event_run. cbv zeta. fold fd.
    destruct (Z.ltb_spec fd 0) as [Hneg | _]; [lia |].
    cbn [_fd]. fold w1. by rewrite Hrun. }
  exists times,
    ([Open (event_path event_id) fd]
     ++ (summary_trace config ++ init_trace ++ t)
     ++ [Close fd] ++ [Stdout (samples_text times)]),
    (with_trace
       (trace (with_trace (trace w2 ++ [Close fd]) w2)
        ++ [Stdout (samples_text times)])
       (with_trace (trace w2 ++ [Close fd]) w2)).
  split_and!.
  - rewrite (main_dispatch argv config w Hargs), Hevents, Hpin, Husb.
    rewrite to_int_to_unsigned by done.
    by rewrite measure_run, Husb_run.
  - cbn [trace with_trace]. rewrite Htrace. subst w1. cbn [trace with_trace].
    by rewrite <- !app_assoc.
  - reflexivity.
  - cbn [app descriptors].
    destruct (Z.ltb_spec fd 0) as [Hneg | _]; [lia |].
    rewrite descriptors_app.
    assert (Huntouched : Forall (λ a, ¬ is_descriptor_action a)
                           (summary_trace config ++ init_trace ++ t)).
    { rewrite !Forall_app. split_and!.
      - unfold summary_trace. destruct (summary config); repeat constructor.
        by intros [].
      - unfold init_trace. repeat constructor; by intros [].
      - by eapply trials_trace_untouched. }
    rewrite (descriptors_untouched _ _ Huntouched).
    cbn [descriptors release]. by rewrite Z.eqb_refl.
  - lia.
  - rewrite !stdout_of_app, (trials_trace_no_stdout _ _ _ _ _ _ _ Htrials).
    cbn [stdout_of app]. by rewrite app_nil_r.
Qed.

End UsbCompletion.

(** The argument of the last option of the command line that [select]
    picks, if there is one. *)
Definition last_given (select : getopt_result → option Z)
    (argv : list getopt_result) : option Z :=
  last (omap select argv).

(** The argument of each option that takes a number. *)
Definition given_i (o : getopt_result) : option Z :=
  match o with getopt_i (stoi_value v) => Some v | _ => None end.
Definition given_d (o : getopt_result) : option Z :=
  match o with getopt_d (stoi_value v) => Some v | _ => None end.
Definition given_D (o : getopt_result) : option Z :=
  match o with getopt_D (stoi_value v) => Some v | _ => None end.
Definition given_u (o : getopt_result) : option Z :=
  match o with getopt_u (stoi_value v) => Some v | _ => None end.
Definition given_k (o : getopt_result) : option Z :=
  match o with getopt_k (stoi_value v) => Some v | _ => None end.
Definition given_p (o : getopt_result) : bool :=
  match o with getopt_p => true | _ => false end.

(** The arguments [std::stoi] has converted are [int]s. *)
Definition int_optarg (o : getopt_result) : Prop :=
  match optarg_of o with
  | Some (stoi_value v) => is_int v
  | _ => True
  end.

(** One member of a JSON object. *)
Definition json_member (name value : string) : string :=
  dquote +:+ name +:+ dquote +:+ ":" +:+ value.

(** The summary line: one JSON object with the six members in this order,
    the ids as the numbers given, [null] for an id that was not given. *)
Definition summary_line (n dmin dmax : Z) (on_pin : bool)
    (usb_given key_given : option Z) : string :=
  "{" +:+ json_member "iterations" (show n)
  +:+ "," +:+ json_member "delay_min" (show dmin)
  +:+ "," +:+ json_member "delay_max" (show dmax)
  +:+ "," +:+ json_member "pin" (if on_pin then "true" else "false")
  +:+ "," +:+ json_member "usb" (from_option show "null" usb_given)
  +:+ "," +:+ json_member "key" (from_option show "null" key_given)
  +:+ "}" +:+ endl.

Lemma config_summary_line config :
  config_summary config
  = summary_line (iterations config) (delay_min config) (delay_max config)
      (pin config) (to_int <$> usb config) (to_int <$> key config).
Proof.
  unfold config_summary, summary_line, json_member, tf, opt.
  rewrite !append_associative.
  by destruct (usb config), (key config).
Qed.

Lemma last_given_cons select o argv :
  last_given select (o :: argv)
  = match last_given select argv with
    | Some v => Some v
    | None => select o
    end.
Proof.
  unfold last_given. cbn [omap list_omap].
  destruct (select o) as [v |]; [| by destruct (last _)].
  by rewrite last_cons.
Qed.

(** What the options make of a configuration, member by member. *)
Lemma parse_options_members argv :
  ∀ config w config' w',
    Forall int_optarg argv →
    parse_options argv config w = Returned config' w' →
    iterations config' = default (iterations config) (last_given given_i argv)
    ∧ delay_min config' = default (delay_min config) (last_given given_d argv)
    ∧ delay_max config' = default (delay_max config) (last_given given_D argv)
    ∧ pin config' = pin config || existsb given_p argv
    ∧ to_int <$> usb config'
      = match last_given given_u argv with
        | Some v => Some v
        | None => to_int <$> usb config
        end
    ∧ to_int <$> key config'
      = match last_given given_k argv with
        | Some v => Some v
        | None => to_int <$> key config
        end.
Proof.
  induction argv as [| o argv IH]; intros config w config' w' Hint Hrun.
  - cbn in Hrun. injection Hrun as <- <-. cbn.
    rewrite orb_false_r. by split_and!.
  - apply Forall_cons in Hint as [Ho Hint].
    cbn [parse_options] in Hrun. unfold bind in Hrun.
    destruct (parse_option o config w) as [config1 w1 | | |] eqn:Hopt;
      [| done..].
    destruct (IH _ _ _ _ Hint Hrun) as (Hi & Hd & HD & Hp & Hu & Hk).
    rewrite !last_given_cons. cbn [existsb].
    rewrite Hi, Hd, HD, Hp, Hu, Hk. clear Hi Hd HD Hp Hu Hk IH Hrun.
    destruct o as [optarg | optarg | optarg | | optarg | optarg | | | | diagnostic];
      cbn [parse_option] in Hopt; rewrite ?complain_run in Hopt;
      unfold bind in Hopt;
      rewrite ?get_positive_run, ?get_num_run, ?help_run in Hopt;
      try destruct optarg as [val | |]; try done;
      try match type of Hopt with
          | context [if ?c then _ else _] => destruct c; [done |]
          end;
      injection Hopt as <- <-;
      cbn [iterations delay_min delay_max pin usb key set_iterations
           set_delay_min set_delay_max set_pin set_usb set_key set_events
           set_summary given_i given_d given_D given_u given_k given_p
           fmap option_fmap option_map];
      rewrite ?orb_true_r, ?orb_false_r, ?orb_true_l, ?orb_false_l;
      try (unfold int_optarg in Ho; cbn in Ho; rewrite (to_int_to_unsigned _ Ho));
      split_and!;
      repeat match goal with
             | |- context [last_given ?s argv] => destruct (last_given s argv)
             end; try done.
Qed.



(** [-u 3 -k 30 -i 1 -d 100 -D 200] on the device that opens, with a failed
    read left after the press and the release. *)
Lemma main_usb_measurement_completes_witness :
  ∃ times t w',
    main [getopt_u (stoi_value 3); getopt_k (stoi_value 30);
          getopt_i (stoi_value 1); getopt_d (stoi_value 100);
          getopt_D (stoi_value 200)]
      (example_world []
         [(24, key_event 30 1); (24, key_event 30 0); (-1, syn_event)])
    = Returned 0 w'
    ∧ trace w'
      = trace (example_world []
                 [(24, key_event 30 1); (24, key_event 30 0); (-1, syn_event)])
        ++ t
    ∧ head t = Some (Open (event_path 3) 5)
    ∧ descriptors [] t = Some []
    ∧ Z.of_nat (length times) = 1
    ∧ stdout_of t
      = stdout_of
          (summary_trace
             (set_delay_max 200 (set_delay_min 100 (set_iterations 1
                (set_key (Some 30) (set_usb (Some 3) defaults))))))
        ++ [samples_text times].
Proof.
  apply (main_usb_measurement_completes
           [getopt_u (stoi_value 3); getopt_k (stoi_value 30);
            getopt_i (stoi_value 1); getopt_d (stoi_value 100);
            getopt_D (stoi_value 200)]
           (set_delay_max 200 (set_delay_min 100 (set_iterations 1
              (set_key (Some 30) (set_usb (Some 3) defaults)))))
           3 30 24
           (example_world []
              [(24, key_event 30 1); (24, key_event 30 0); (-1, syn_event)])
           [131] [(-1, syn_event)]).
  - reflexivity.
  - reflexivity.
  - vm_compute. split; [discriminate | reflexivity].
  - reflexivity.
  - vm_compute. discriminate.
  - discriminate.
  - vm_compute. reflexivity.
  - reflexivity.
Defined.
